(** * Vasicek zero-coupon bond pricer: the simulation pipeline of [main.py]

    The development embeds the functions of [src/main.py] and proves the
    properties of the specification about them.

    - Python exceptions are values of [exn]; a call that may raise returns a
      [result], and a sequence of statements is a chain of binds in the
      order of the source.
    - Python [dict]s are [gmap string _].
    - A 1-D numpy array with one value per simulated path is a vector
      [vec F n]; the time grid is a list.  A 2-D array of shape [(n, k)] is
      the list of its [k] columns, [a[:, j]] being [a !! j]: every 2-D
      operation of the program works on whole columns.
    - numpy's [float64] arithmetic is the interface [Float64], over the
      interface [Arithmetic] of the operations that IEEE 754 fixes.  The
      definitions are written once over them, with the operations in the
      order in which the Python expressions evaluate them.  Theorems that
      use no law of arithmetic are proved for every implementation of the
      interface.  Theorems that need algebra are proved for the instance of
      exact real numbers, [R_float64], in which no operation rounds,
      overflows or yields a NaN: they say so, and they are not statements
      about the binary64 numbers of the running program.  The binary64
      numbers themselves are the instance [binary64] of [Arithmetic], on
      which the simulator, the integration of the rate and the last steps
      of the estimator run; the exponential has no such instance.
    - [np.full] gives the array the dtype of its fill value.  The simulator
      is embedded for a float initial rate, [simulate_short_rate_quasi_mc],
      and for a Python int, [simulate_short_rate_quasi_mc_int64], where the
      ensemble is an array of integers.
    - The scrambled Sobol generator is seeded afresh at every call.  Its
      output, mapped to normal shocks, is an argument [shocks] of the
      functions that draw from it. *)

From Stdlib Require Import ZArith QArith Reals Lra Lia.
From Stdlib Require PrimFloat SpecFloat FloatOps FloatAxioms.
From stdpp Require Import base option list gmap strings.

Open Scope Z_scope.

(** ** Exceptions *)

Inductive exn : Type :=
  | KeyError (key : string)
  | AttributeError
  | IndexError
  | OverflowError
  | TypeError
  | ValueError
  | ZeroDivisionError.

Inductive result (A : Type) : Type :=
  | Ok (a : A)
  | Raise (e : exn).
Arguments Ok {A} a.
Arguments Raise {A} e.

#[global] Instance result_ret : MRet result := fun _ a => Ok a.
#[global] Instance result_bind : MBind result := fun _ _ f m =>
  match m with
  | Ok a => f a
  | Raise e => Raise e
  end.

(** ** Simulation-count normalizer *)

Definition MAX_SIMULATIONS : Z := 2 ^ 16.

(** The value of [np.ceil(np.log2(n))] for a Python integer [n]: an integral
    float for a positive [n], minus infinity at [0] and not-a-number below.
    For a positive [n] it is taken as the exact ceiling of the binary
    logarithm.  The [float64] logarithm differs from an integer by more than
    its rounding error unless [n] is a power of two, where it is exact, as
    long as [n] is at most [2 ^ 16]; above, it is more than 16 like the exact
    one, and the minimum with [MAX_SIMULATIONS] is the same. *)
Inductive ceil_log : Type :=
  | Finite (k : Z)
  | MinusInfinity
  | NotANumber.

(** numpy takes a Python integer as an [int64], or as a [uint64] from
    [2 ^ 63] on.  An integer outside both ranges has no numpy integer type:
    it becomes an array of Python objects, on which [np.log2] raises
    [TypeError]. *)
Definition np_ceil_log2 (n : Z) : result ceil_log :=
  if (n <? - 2 ^ 63) || (2 ^ 64 <=? n) then Raise TypeError
  else if n <? 0 then Ok NotANumber
  else if n =? 0 then Ok MinusInfinity
  else Ok (Finite (Z.log2_up n)).

(** [int(x)] on such a float: infinities and NaN cannot be converted. *)
Definition py_int (x : ceil_log) : result Z :=
  match x with
  | Finite k => Ok k
  | MinusInfinity => Raise OverflowError
  | NotANumber => Raise ValueError
  end.

Definition next_power_of_2 (n : Z) : result Z :=
  x ← np_ceil_log2 n;
  k ← py_int x;
  Ok (Z.min (2 ^ k) MAX_SIMULATIONS).

(** ** The arithmetic of numpy's [float64] *)

(** The operations that IEEE 754 fixes bit for bit: the four operations
    and the square root, and the conversions between floats and integers.
    [round(x)] is exact and raises at an infinity or a NaN; [to_int64] is
    the cast that an assignment into an array of dtype int64 applies to a
    float. *)
Class Arithmetic (F : Type) : Type := {
  lit : Q → F;                     (* a float literal *)
  of_int : Z → F;                  (* an [int] operand converted to float *)
  fadd : F → F → F;
  fsub : F → F → F;
  fmul : F → F → F;
  fdiv : F → F → F;
  fneg : F → F;
  fsqrt : F → F;                   (* [np.sqrt] *)
  is_zero : F → bool;              (* [x == 0] *)
  py_round : F → result Z;         (* [round(x)] *)
  to_int64 : F → Z                 (* [x.astype(np.int64)] *)
}.

(** The functions of the mathematical libraries, which no standard fixes
    to the last bit.  Python's [x ** n] on a float raises [OverflowError]
    when the power is too large for a float; numpy's [x ** n] on a
    [float64] and [round(x, ndigits)] return a float in every case. *)
Class Float64 (F : Type) : Type := {
  float64_arithmetic :: Arithmetic F;
  py_pow : F → Z → result F;       (* [x ** n] on a Python float *)
  fpow : F → Z → F;                (* [x ** n] on a [np.float64] *)
  fexp : F → F;                    (* [np.exp] *)
  py_round_ndigits : F → Z → F     (* [round(x, ndigits)] *)
}.

Declare Scope f64_scope.
Delimit Scope f64_scope with f.
Infix "+" := fadd : f64_scope.
Infix "-" := fsub : f64_scope.
Infix "*" := fmul : f64_scope.
Infix "/" := fdiv : f64_scope.
Notation "- x" := (fneg x) : f64_scope.
Infix "**" := fpow (at level 30, right associativity) : f64_scope.

(** ** Python and numpy operations used by the program *)

(** Dictionaries and arrays of any element type: of floats for an array of
    dtype float64, of integers for one of dtype int64. *)
Section arrays.
Context {A : Type}.

(** [d[key]] on a dictionary. *)
Definition dict_getitem (d : gmap string A) (key : string) : result A :=
  match d !! key with
  | Some v => Ok v
  | None => Raise (KeyError key)
  end.

(** A Python index [j] into an axis of length [len]: negative indices count
    from the end. *)
Definition py_index (len : nat) (j : Z) : result nat :=
  let j' := if j <? 0 then j + Z.of_nat len else j in
  if (0 <=? j') && (j' <? Z.of_nat len) then Ok (Z.to_nat j')
  else Raise IndexError.

(** [a[:, j]] *)
Definition np_getcol {n} (a : list (vec A n)) (j : Z) : result (vec A n) :=
  i ← py_index (length a) j;
  match a !! i with
  | Some c => Ok c
  | None => Raise IndexError
  end.

(** [a[:, j] = c], for a column [c] of the dtype of [a]. *)
Definition np_setcol {n} (a : list (vec A n)) (j : Z) (c : vec A n)
    : result (list (vec A n)) :=
  i ← py_index (length a) j;
  Ok (<[i := c]> a).

(** [np.full((n, k), x)]: the array takes the dtype of the fill value [x],
    float64 for a Python float and int64 for a Python int. *)
Definition np_full (n k : nat) (x : A) : list (vec A n) :=
  replicate k (vreplicate n x).

(** [a[:, :-1]] *)
Definition np_init (a : list A) : list A := take (length a - 1) a.
End arrays.

Section numpy.
Context {F : Type} `{Arithmetic F}.

(** [x / y] on Python floats. *)
Definition py_truediv (x y : F) : result F :=
  if is_zero y then Raise ZeroDivisionError else Ok (x / y)%f.

(** [np.linspace(start, stop, num)]: the points [j * step + start] for
    [j = 0 .. num - 1] with [step = (stop - start) / (num - 1)], computed as
    [j / (num - 1) * (stop - start) + start] when the step is zero, and the
    last point overwritten with [stop]. *)
Definition np_linspace (start stop : F) (num : Z) : result (list F) :=
  if num <? 0 then Raise ValueError
  else
    let div := num - 1 in
    let delta := (stop - start)%f in
    let y := map (λ j : nat, of_int (Z.of_nat j)) (seq 0 (Z.to_nat num)) in
    let y :=
      if 0 <? div then
        let step := (delta / of_int div)%f in
        if is_zero step
        then map (λ j, (j / of_int div * delta + start)%f) y
        else map (λ j, (j * step + start)%f) y
      else map (λ j, (j * delta + start)%f) y in
    Ok (if 1 <? num then <[Z.to_nat (num - 1) := stop]> y else y).

(** [np.diff(g)] *)
Definition np_diff (g : list F) : list F :=
  zip_with (λ lo hi, (hi - lo)%f) g (drop 1 g).

(** [a * dt] for a 2-D array [a] and a 1-D array [dt], with numpy's
    broadcasting of the last axis. *)
Definition np_mul_broadcast {n} (a : list (vec F n)) (dt : list F)
    : result (list (vec F n)) :=
  if decide (length a = length dt)
  then Ok (zip_with (λ c d, vmap (λ r, r * d)%f c) a dt)
  else match a, dt with
       | _, [d] => Ok (map (λ c, vmap (λ r, r * d)%f c) a)
       | [c], _ => Ok (map (λ d, vmap (λ r, r * d)%f c) dt)
       | _, _ => Raise ValueError
       end.

(** [np.cumsum(a, axis=1)]: the running sum of the columns. *)
Fixpoint cumsum_from {n} (acc : vec F n) (a : list (vec F n))
    : list (vec F n) :=
  match a with
  | [] => []
  | c :: a' =>
      let acc' := vzip_with fadd acc c in
      acc' :: cumsum_from acc' a'
  end.

Definition np_cumsum {n} (a : list (vec F n)) : list (vec F n) :=
  match a with
  | [] => []
  | c :: a' => c :: cumsum_from c a'
  end.

(** [np.sum(v)], [np.mean(v)] and [np.var(v)] of a 1-D array.  The sum adds
    from left to right.  numpy adds in this order up to seven elements and
    by blocks from eight on, which is the same number when addition is
    associative, and may differ in the last bits of a binary64 sum. *)
Definition np_sum {n} (v : vec F n) : F :=
  foldl fadd (of_int 0) (vec_to_list v).

Definition np_mean {n} (v : vec F n) : F :=
  (np_sum v / of_int (Z.of_nat n))%f.

Definition np_var {n} (v : vec F n) : F :=
  let arrmean := np_mean v in
  let x := vmap (λ a, a - arrmean)%f v in
  np_mean (vmap (λ d, d * d)%f x).

(** The control-variate adjustment of [monte_carlo_bond_price]:
    [mc_estimate - (np.mean(final_discount_factors) - closed_form_price)],
    where [mc_estimate] is [np.mean(final_discount_factors)]. *)
Definition adjusted_mc_estimate {n} (final_discount_factors : vec F n)
    (closed_form_price : F) : F :=
  let mc_estimate := np_mean final_discount_factors in
  (mc_estimate - (np_mean final_discount_factors - closed_form_price))%f.
End numpy.

(** ** The pricing pipeline *)

(** The outcome of the quasi-random sampler for a dimension and a number of
    samples: an exception, or the entries of a matrix of normal shocks. *)
Abbreviation normal_sampler F := (Z → nat → result (nat → nat → F)).

Section simulation.
Context {F : Type} `{Arithmetic F}.

(** Fixed parameters of the Vasicek model. *)
Definition KAPPA : F := lit 0.1.
Definition THETA : F := lit 0.03.

(** [int(round(total_time / time_step))] *)
Definition num_steps_of (total_time time_step : F) : result Z :=
  q ← py_truediv total_time time_step;
  py_round q.

(** The call [stats.norm.ppf(generate_sobol_sequence(dim, num_samples))].
    The scrambled Sobol generator draws a fresh seed at every call and
    rejects the dimensions it does not support, so the outcome of the call
    is an input of the model: [sampler dim num_samples] is the exception the
    call raises, or the array of shape [(num_samples, dim)] it returns,
    given by its entries [shocks i j] at row [i] and column [j]. *)
Definition generate_normal_samples (sampler : normal_sampler F)
    (dim : Z) (num_samples : nat) : result (list (vec F num_samples)) :=
  shocks ← sampler dim num_samples;
  Ok (map (λ j, fun_to_vec (λ i : fin num_samples, shocks (fin_to_nat i) j))
          (seq 0 (Z.to_nat dim))).

(** [for step in steps: state = body(state, step)] *)
Fixpoint for_each {A} (body : A → nat → result A) (steps : list nat)
    (state : A) : result A :=
  match steps with
  | [] => Ok state
  | step :: steps' => state' ← body state step; for_each body steps' state'
  end.

(** The body of the loop of [simulate_short_rate_quasi_mc]. *)
Definition euler_step {n} (volatility time_step : F)
    (normal_samples : list (vec F n))
    (rate_paths : list (vec F n)) (step : nat) : result (list (vec F n)) :=
  z ← np_getcol normal_samples (Z.of_nat step - 1);
  let dW := vmap (λ x, x * fsqrt time_step)%f z in
  prev ← np_getcol rate_paths (Z.of_nat step - 1);
  let dr :=
    vzip_with fadd
      (vmap (λ r, KAPPA * (THETA - r) * time_step)%f prev)
      (vmap (λ w, volatility * w)%f dW) in
  np_setcol rate_paths (Z.of_nat step) (vzip_with fadd prev dr).

(** The simulator called with a float [initial_rate]: the ensemble is an
    array of dtype float64. *)
Definition simulate_short_rate_quasi_mc
    (total_time initial_rate volatility : F) (num_simulations : nat)
    (time_step : F) (sampler : normal_sampler F)
    : result (list (vec F num_simulations) * list F) :=
  num_steps ← num_steps_of total_time time_step;
  time_grid ← np_linspace (of_int 0) total_time (num_steps + 1);
  normal_samples ← generate_normal_samples sampler num_steps num_simulations;
  let rate_paths :=
    np_full num_simulations (Z.to_nat (num_steps + 1)) initial_rate in
  rate_paths ←
    for_each (euler_step volatility time_step normal_samples)
             (seq 1 (Z.to_nat num_steps)) rate_paths;
  Ok (rate_paths, time_grid).

(** The same loop body on an ensemble of dtype int64.  The column read,
    an array of integers, is converted to float64 by the arithmetic with
    floats; the float64 column assigned to [rate_paths[:, step]] is cast to
    the dtype of the array. *)
Definition euler_step_int64 {n} (volatility time_step : F)
    (normal_samples : list (vec F n))
    (rate_paths : list (vec Z n)) (step : nat) : result (list (vec Z n)) :=
  z ← np_getcol normal_samples (Z.of_nat step - 1);
  let dW := vmap (λ x, x * fsqrt time_step)%f z in
  prev ← np_getcol rate_paths (Z.of_nat step - 1);
  let dr :=
    vzip_with fadd
      (vmap (λ r, KAPPA * (THETA - of_int r) * time_step)%f prev)
      (vmap (λ w, volatility * w)%f dW) in
  np_setcol rate_paths (Z.of_nat step)
    (vmap to_int64 (vzip_with (λ r d, of_int r + d)%f prev dr)).

(** The simulator called with a Python int as [initial_rate], an integer
    within the range of int64: [np.full] returns an array of dtype int64,
    and the statements of the function are the same. *)
Definition simulate_short_rate_quasi_mc_int64
    (total_time : F) (initial_rate : Z) (volatility : F)
    (num_simulations : nat) (time_step : F) (sampler : normal_sampler F)
    : result (list (vec Z num_simulations) * list F) :=
  num_steps ← num_steps_of total_time time_step;
  time_grid ← np_linspace (of_int 0) total_time (num_steps + 1);
  normal_samples ← generate_normal_samples sampler num_steps num_simulations;
  let rate_paths :=
    np_full num_simulations (Z.to_nat (num_steps + 1)) initial_rate in
  rate_paths ←
    for_each (euler_step_int64 volatility time_step normal_samples)
             (seq 1 (Z.to_nat num_steps)) rate_paths;
  Ok (rate_paths, time_grid).

(** The integral of [compute_discount_factors]:
    [np.cumsum(rate_paths[:, :-1] * dt, axis=1)] with
    [dt = np.diff(time_grid)]. *)
Definition rate_integral {n} (rate_paths : list (vec F n))
    (time_grid : list F) : result (list (vec F n)) :=
  let dt := np_diff time_grid in
  integrand ← np_mul_broadcast (np_init rate_paths) dt;
  Ok (np_cumsum integrand).
End simulation.

Section pipeline.
Context {F : Type} `{Float64 F}.

(** [T], [r0], [sigma], [kappa] and [theta] are Python floats and [B_T] is
    a [np.float64]: the powers of [sigma] and [kappa] and the division of
    one by the other are Python's, and raise; the other operations are
    numpy's. *)
Definition vasicek_bond_price (T r0 sigma kappa theta : F) : result F :=
  let B_T := ((of_int 1 - fexp (- kappa * T)) / kappa)%f in
  sigma_2 ← py_pow sigma 2;
  kappa_2 ← py_pow kappa 2;
  q ← py_truediv sigma_2 (of_int 2 * kappa_2)%f;
  sigma_2 ← py_pow sigma 2;
  let A_T :=
    fexp ((theta - q) * (B_T - T)
          - sigma_2 * (B_T ** 2) / (of_int 4 * kappa))%f in
  Ok (A_T * fexp (- B_T * r0))%f.

Definition compute_discount_factors {n}
    (rate_paths : list (vec F n)) (time_grid : list F)
    : result (list (vec F n)) :=
  integral ← rate_integral rate_paths time_grid;
  Ok (map (vmap (λ x, fexp (- x))%f) integral).

(** The estimator.  The mean [mc_estimate] and the adjusted estimate are
    computed by [adjusted_mc_estimate]. *)
Definition monte_carlo_bond_price
    (total_time initial_rate volatility : F) (num_simulations : nat)
    (time_step : F) (sampler : normal_sampler F) : result (F * F) :=
  '(rate_paths, time_grid) ←
    simulate_short_rate_quasi_mc total_time initial_rate volatility
      num_simulations time_step sampler;
  discount_factors ← compute_discount_factors rate_paths time_grid;
  final_discount_factors ← np_getcol discount_factors (-1);
  closed_form_price ←
    vasicek_bond_price total_time initial_rate volatility KAPPA THETA;
  let adjusted :=
    adjusted_mc_estimate final_discount_factors closed_form_price in
  let variance := np_var final_discount_factors in
  Ok (py_round_ndigits adjusted 10, py_round_ndigits variance 10).

(** The record returned by [run]. *)
Record output : Type := Output { bond_price : F; variance : F }.

(** [input_data] holds floats here: a scenario whose initial rate is a
    Python int reaches the simulator on an ensemble of dtype int64, which
    [simulate_short_rate_quasi_mc_int64] embeds.  [solver_params] is [None],
    the declared default, or a dictionary of integers; [extra_arguments] is
    not used by the code and is left out. *)
Definition run (input_data : gmap string F)
    (solver_params : option (gmap string Z))
    (sampler : normal_sampler F) : result output :=
  initial_rate ← dict_getitem input_data "Initial Interest Rate";
  volatility ← dict_getitem input_data "Volatility";
  months ← dict_getitem input_data "Maturity Time";
  let bond_maturity := (months / of_int 12)%f in
  params ← from_option Ok (Raise AttributeError) solver_params;
  let original_num_simulations :=
    default 10000 (params !! "NumberOfSimulations") in
  num_simulations ← next_power_of_2 original_num_simulations;
  '(estimated_price, variance) ←
    monte_carlo_bond_price bond_maturity initial_rate volatility
      (Z.to_nat num_simulations) (lit 0.01) sampler;
  Ok {| bond_price := estimated_price; variance := variance |}.
End pipeline.

(** ** The wrapper [app.py] *)

(** The object that [json.load] reads from [input.json], by the keys the
    wrapper looks at: a field is [None] when the key is absent.  The value of
    [solver_params] is a dictionary or JSON [null], which is Python's
    [None].  The key [extra_arguments] only feeds the argument of [run] that
    the code does not use. *)
Record document (F : Type) : Type := Document {
  doc_data : option (gmap string F);
  doc_solver_params : option (option (gmap string Z))
}.
Arguments Document {F} _ _.
Arguments doc_data {F} _.
Arguments doc_solver_params {F} _.

Section wrapper.
Context {F : Type} `{Float64 F}.

(** The script from the parsed document on: [dic.get('solver_params', {})],
    then [main.run(dic['data'], solver_params, extra_arguments)], whose
    result is printed. *)
Definition app (dic : document F) (sampler : normal_sampler F)
    : result output :=
  let solver_params := default (Some ∅) (doc_solver_params dic) in
  data ← from_option Ok (Raise (KeyError "data")) (doc_data dic);
  run data solver_params sampler.
End wrapper.

(** ** The instance of exact real arithmetic *)

#[global] Instance R_eq_dec : EqDecision R := Req_dec_T.

(** [round(x)]: the nearest integer, ties to the even one. *)
Definition R_round (x : R) : Z :=
  let f := Zfloor x in
  if Rlt_dec (x - IZR f) (1 / 2) then f
  else if Rlt_dec (1 / 2) (x - IZR f) then f + 1
  else if Z.even f then f else f + 1.

(** [round(x, ndigits)]: the nearest multiple of [10 ** -ndigits]. *)
Definition R_round_ndigits (x : R) (ndigits : Z) : R :=
  (IZR (R_round (x * powerRZ 10 ndigits)) / powerRZ 10 ndigits)%R.

(** The cast of a float to int64 drops the fraction.  A value that is out
    of the range of int64 has no defined cast; numpy stores the least
    int64 for it on the usual processors. *)
Definition R_trunc (x : R) : Z :=
  if Rle_dec 0 x then Zfloor x else Zceil x.

Definition R_to_int64 (x : R) : Z :=
  let z := R_trunc x in
  if (- 2 ^ 63 <=? z) && (z <? 2 ^ 63) then z else - 2 ^ 63.

Definition R_arithmetic : Arithmetic R := {|
  lit := Q2R;
  of_int := IZR;
  fadd := Rplus;
  fsub := Rminus;
  fmul := Rmult;
  fdiv := Rdiv;
  fneg := Ropp;
  fsqrt := sqrt;
  is_zero := λ x, bool_decide (x = 0%R);
  py_round := λ x, Ok (R_round x);
  to_int64 := R_to_int64
|}.

#[global] Instance R_float64 : Float64 R := {|
  float64_arithmetic := R_arithmetic;
  py_pow := λ x n, Ok (powerRZ x n);
  fpow := powerRZ;
  fexp := exp;
  py_round_ndigits := R_round_ndigits
|}.

(** ** The instance of binary64 arithmetic *)

(** An integer converted to the nearest float, ties to even, and to an
    infinity beyond the range. *)
Definition binary64_of_int (z : Z) : PrimFloat.float :=
  FloatOps.SF2Prim
    (SpecFloat.binary_normalize FloatOps.prec FloatOps.emax z 0 false).

(** A decimal literal is read as the float nearest to it.  The quotient of
    two integers that are floats themselves is that float: the literals of
    the program, and of the examples below, have less than 16 digits. *)
Definition binary64_lit (q : Q) : PrimFloat.float :=
  PrimFloat.div (binary64_of_int (Qnum q)) (binary64_of_int (Zpos (Qden q))).

(** The integer nearest to [m * 2 ^ e], the even one of two. *)
Definition round_half_even (m e : Z) : Z :=
  if 0 <=? e then m * 2 ^ e
  else
    let d := 2 ^ (- e) in
    let q := m / d in
    let r := m mod d in
    if 2 * r <? d then q
    else if d <? 2 * r then q + 1
    else if Z.even q then q else q + 1.

(** [round(x)]: a float is [m * 2 ^ e] for integers [m] and [e], so the
    nearest integer is found exactly. *)
Definition binary64_round (x : PrimFloat.float) : result Z :=
  match FloatOps.Prim2SF x with
  | SpecFloat.S754_nan => Raise ValueError
  | SpecFloat.S754_infinity _ => Raise OverflowError
  | SpecFloat.S754_zero _ => Ok 0
  | SpecFloat.S754_finite s m e =>
      let z := round_half_even (Zpos m) e in
      Ok (if s then - z else z)
  end.

(** The cast to int64 drops the fraction; out of the range of int64, and
    at an infinity or a NaN, it gives the least int64. *)
Definition binary64_to_int64 (x : PrimFloat.float) : Z :=
  match FloatOps.Prim2SF x with
  | SpecFloat.S754_finite s m e =>
      let t := if 0 <=? e then Zpos m * 2 ^ e else Zpos m / 2 ^ (- e) in
      let z := if s then - t else t in
      if (- 2 ^ 63 <=? z) && (z <? 2 ^ 63) then z else - 2 ^ 63
  | SpecFloat.S754_zero _ => 0
  | _ => - 2 ^ 63
  end.

#[global] Instance binary64 : Arithmetic PrimFloat.float := {|
  lit := binary64_lit;
  of_int := binary64_of_int;
  fadd := PrimFloat.add;
  fsub := PrimFloat.sub;
  fmul := PrimFloat.mul;
  fdiv := PrimFloat.div;
  fneg := PrimFloat.opp;
  fsqrt := PrimFloat.sqrt;
  is_zero := λ x, PrimFloat.eqb x PrimFloat.zero;
  py_round := binary64_round;
  to_int64 := binary64_to_int64
|}.

(** ** Vocabulary of the specification *)

(** [p] is the smallest power of two that is at least [n]. *)
Definition smallest_power_of_2_above (n p : Z) : Prop :=
  (∃ k, 0 ≤ k ∧ p = 2 ^ k) ∧ n ≤ p ∧ ∀ j, 0 ≤ j → n ≤ 2 ^ j → p ≤ 2 ^ j.

Section vocabulary.
Context {F : Type} `{Arithmetic F}.

#[global] Instance float64_inhabited : Inhabited F := populate (of_int 0).

(** The entry [a[i, j]] of a 2-D array held by columns. *)
Definition entry {n} (a : list (vec F n)) (i : fin n) (j : nat) : F :=
  (a !!! j) !!! i.

(** One step of the recurrence of the short rate: the rate that follows
    [r] under the shock [z]. *)
Definition vasicek_step (volatility time_step r z : F) : F :=
  (r + (lit 0.1 * (lit 0.03 - r) * time_step
        + volatility * (z * fsqrt time_step)))%f.

(** The left Riemann sum
    [rate 0 * (grid 1 - grid 0) + ... + rate t * (grid (t+1) - grid t)],
    added from left to right. *)
Fixpoint left_riemann (rate grid : nat → F) (t : nat) : F :=
  match t with
  | O => (rate O * (grid 1%nat - grid O))%f
  | S t' =>
      (left_riemann rate grid t' + rate t * (grid (S t) - grid t))%f
  end.
End vocabulary.

(** [p] is a power of two with a natural exponent. *)
Definition power_of_2 (p : Z) : Prop := ∃ k, 0 ≤ k ∧ p = 2 ^ k.

(** The weighted sum [a^(t-1) * z 0 + ... + a * z (t-2) + z (t-1)] of the
    first [t] shocks of a path. *)
Fixpoint shock_sum (a : R) (z : nat → R) (t : nat) : R :=
  match t with
  | O => 0%R
  | S t' => (a * shock_sum a z t' + z t')%R
  end.

(** The fields that the scenario record must have. *)
Definition required_fields : list string :=
  ["Initial Interest Rate"; "Volatility"; "Maturity Time"].

(** The scenario of the specification: an initial rate of 3%, a volatility
    of 1% and a maturity of 12 months. *)
Definition example_scenario : gmap string R :=
  {["Initial Interest Rate" := 0.03%R; "Volatility" := 0.01%R;
    "Maturity Time" := 12%R]}.

(** A sampler that returns the matrix of zero shocks. *)
Definition zero_sampler : normal_sampler R := λ _ _, Ok (λ _ _, 0%R).

(** A sampler of binary64 shocks, all of them 0.5. *)
Definition half_sampler : normal_sampler PrimFloat.float :=
  λ _ _, Ok (λ _ _, lit 0.5).

(** The mean of the squared deviations of real numbers from their mean. *)
Definition Rsum (l : list R) : R := foldr Rplus 0%R l.
Definition Rmean (l : list R) : R := (Rsum l / INR (length l))%R.
Definition mean_squared_deviation (l : list R) : R :=
  Rmean (map (λ x, (x - Rmean l) * (x - Rmean l))%R l).

(** ** The simulation-count normalizer *)

(** The four cases of the logarithm. *)
Lemma np_ceil_log2_cases (n : Z) :
  ((n < - 2 ^ 63 ∨ 2 ^ 64 ≤ n) ∧ np_ceil_log2 n = Raise TypeError) ∨
  (- 2 ^ 63 ≤ n < 0 ∧ np_ceil_log2 n = Ok NotANumber) ∨
  (n = 0 ∧ np_ceil_log2 n = Ok MinusInfinity) ∨
  (1 ≤ n < 2 ^ 64 ∧ np_ceil_log2 n = Ok (Finite (Z.log2_up n))).
Proof.
  unfold np_ceil_log2.
  destruct (Z.ltb_spec n (- 2 ^ 63)) as [?|?]; [left; split; [lia|done]|].
  destruct (Z.leb_spec (2 ^ 64) n) as [?|?]; [left; split; [lia|done]|].
  cbn [orb]. right.
  destruct (Z.ltb_spec n 0) as [?|?]; [left; split; [lia|done]|].
  right.
  destruct (Z.eqb_spec n 0) as [?|?]; [left; split; [lia|done]|].
  right. split; [lia|done].
Qed.

Lemma next_power_of_2_pos (n : Z) :
  1 ≤ n < 2 ^ 64 →
  next_power_of_2 n = Ok (Z.min (2 ^ Z.log2_up n) MAX_SIMULATIONS).
Proof.
  intros Hn. unfold next_power_of_2.
  destruct (np_ceil_log2_cases n) as [[? _]|[[? _]|[[? _]|[_ ->]]]];
    [lia..|reflexivity].
Qed.

Lemma log2_up_smallest (n : Z) :
  1 ≤ n → smallest_power_of_2_above n (2 ^ Z.log2_up n).
Proof.
  intros Hn. split; [|split].
  - exists (Z.log2_up n). split; [apply Z.log2_up_nonneg | reflexivity].
  - apply Z.log2_log2_up_spec. lia.
  - intros j Hj Hle. apply Z.pow_le_mono_r; [lia|].
    apply Z.log2_up_le_pow2; lia.
Qed.

(** X29: on the positive integers up to 65536, [next_power_of_2] returns the
    smallest power of two that is at least its argument; above 65536 and
    below [2 ^ 64] it returns 65536. *)
Theorem next_power_of_2_spec (n : Z) :
  1 ≤ n →
  (n ≤ 65536 →
   ∃ p, next_power_of_2 n = Ok p ∧ smallest_power_of_2_above n p) ∧
  (65536 < n < 2 ^ 64 → next_power_of_2 n = Ok 65536).
Proof.
  intros Hn. split.
  - intros Hle. rewrite next_power_of_2_pos by lia.
    change MAX_SIMULATIONS with (2 ^ 16).
    exists (2 ^ Z.log2_up n). split; [|by apply log2_up_smallest].
    f_equal. apply Z.min_l. apply Z.pow_le_mono_r; [lia|].
    apply Z.log2_up_le_pow2; lia.
  - intros Hgt. rewrite next_power_of_2_pos by lia.
    change MAX_SIMULATIONS with (2 ^ 16). f_equal. apply Z.min_r.
    pose proof (Z.log2_log2_up_spec n ltac:(lia)) as [_ Hup]. lia.
Qed.

(** C2: a request of [2 ^ 64] is not cut to 65536: the integer is beyond
    the integer types of numpy and the logarithm raises [TypeError].  The
    largest request that is cut is [2 ^ 64 - 1]. *)
Theorem next_power_of_2_huge_request :
  next_power_of_2 (2 ^ 64) = Raise TypeError ∧
  next_power_of_2 (2 ^ 64 - 1) = Ok 65536.
Proof.
  split.
  - unfold next_power_of_2.
    change (np_ceil_log2 (2 ^ 64)) with (@Raise ceil_log TypeError).
    reflexivity.
  - unfold next_power_of_2.
    change (np_ceil_log2 (2 ^ 64 - 1)) with (Ok (Finite 64)).
    reflexivity.
Qed.

(** The requests of the specification: the default of 10000 becomes 16384
    and a request of a million is cut to the ceiling. *)
Example next_power_of_2_default : next_power_of_2 10000 = Ok 16384.
Proof. reflexivity. Qed.

Example next_power_of_2_cap : next_power_of_2 1000000 = Ok 65536.
Proof. reflexivity. Qed.

Lemma next_power_of_2_spec_witness :
  (∃ p, next_power_of_2 1000 = Ok p ∧ smallest_power_of_2_above 1000 p) ∧
  next_power_of_2 1000000 = Ok 65536.
Proof.
  split.
  - apply (next_power_of_2_spec 1000); lia.
  - apply (next_power_of_2_spec 1000000); lia.
Defined.

(** C3: a request of 1 yields 1 sample; a request of 0 yields none, since
    the logarithm of 0 is minus infinity and its conversion to an integer
    raises [OverflowError]. *)
Theorem next_power_of_2_zero_one :
  next_power_of_2 0 = Raise OverflowError ∧ next_power_of_2 1 = Ok 1.
Proof.
  split.
  - unfold next_power_of_2. change (np_ceil_log2 0) with (Ok MinusInfinity).
    reflexivity.
  - unfold next_power_of_2. change (np_ceil_log2 1) with (Ok (Finite 0)).
    reflexivity.
Qed.

(** ** Indexing *)

Section indexing.
Context {F : Type} `{Arithmetic F}.

Lemma py_index_nat (len j : nat) :
  (j < len)%nat → py_index len (Z.of_nat j) = Ok j.
Proof.
  intros Hj. unfold py_index.
  destruct (Z.ltb_spec (Z.of_nat j) 0) as [?|_]; [lia|].
  destruct (Z.leb_spec 0 (Z.of_nat j)) as [_|?]; [|lia].
  destruct (Z.ltb_spec (Z.of_nat j) (Z.of_nat len)) as [_|?]; [|lia].
  simpl. by rewrite Nat2Z.id.
Qed.

Lemma py_index_last (len : nat) :
  (0 < len)%nat → py_index len (-1) = Ok (len - 1)%nat.
Proof.
  intros Hlen. unfold py_index. change (-1 <? 0) with true. cbv iota.
  destruct (Z.leb_spec 0 (-1 + Z.of_nat len)) as [_|?]; [|lia].
  destruct (Z.ltb_spec (-1 + Z.of_nat len) (Z.of_nat len)) as [_|?]; [|lia].
  cbn [andb]. f_equal. lia.
Qed.

Lemma np_getcol_lookup {n} (a : list (vec F n)) (j : nat) (c : vec F n) :
  a !! j = Some c → np_getcol a (Z.of_nat j) = Ok c.
Proof.
  intros Hj. unfold np_getcol.
  rewrite py_index_nat by (by eapply lookup_lt_Some). simpl. by rewrite Hj.
Qed.

Lemma np_getcol_last {n} (a : list (vec F n)) (c : vec F n) :
  a !! (length a - 1)%nat = Some c → np_getcol a (-1) = Ok c.
Proof.
  intros Hj. unfold np_getcol.
  rewrite py_index_last.
  - simpl. by rewrite Hj.
  - apply lookup_lt_Some in Hj. lia.
Qed.

Lemma np_getcol_empty {n} (j : Z) :
  np_getcol (@nil (vec F n)) j = Raise IndexError.
Proof.
  unfold np_getcol, py_index.
  destruct (_ && _) eqn:E; [|done].
  apply andb_true_iff in E as [E1 E2].
  apply Z.leb_le in E1. apply Z.ltb_lt in E2. simpl in E1, E2.
  destruct (Z.ltb_spec j 0); lia.
Qed.

Lemma np_setcol_nat {n} (a : list (vec F n)) (j : nat) (c : vec F n) :
  (j < length a)%nat → np_setcol a (Z.of_nat j) c = Ok (<[j := c]> a).
Proof. intros Hj. unfold np_setcol. by rewrite py_index_nat. Qed.
End indexing.

(** ** The path simulator *)

Section simulator.
Context {F : Type} `{Arithmetic F}.

Lemma euler_step_ok {n} (volatility time_step : F)
    (normal_samples rate_paths : list (vec F n)) (step : nat)
    (z prev : vec F n) :
  (1 ≤ step)%nat → (step < length rate_paths)%nat →
  normal_samples !! (step - 1)%nat = Some z →
  rate_paths !! (step - 1)%nat = Some prev →
  ∃ c, euler_step volatility time_step normal_samples rate_paths step
         = Ok (<[step := c]> rate_paths) ∧
       ∀ i, c !!! i = vasicek_step volatility time_step (prev !!! i) (z !!! i).
Proof.
  intros Hstep Hlen Hz Hprev. unfold euler_step.
  replace (Z.of_nat step - 1) with (Z.of_nat (step - 1)) by lia.
  rewrite (np_getcol_lookup _ _ _ Hz). simpl.
  rewrite (np_getcol_lookup _ _ _ Hprev). simpl.
  rewrite np_setcol_nat by done.
  eexists. split; [reflexivity|].
  intros i. unfold vasicek_step.
  by rewrite !vlookup_zip_with, !vlookup_map.
Qed.

Lemma euler_loop {n} (volatility time_step : F)
    (normal_samples : list (vec F n)) (m : nat) :
  ∀ (a : nat) (rate_paths : list (vec F n)),
  (1 ≤ a)%nat → (a + m ≤ length rate_paths)%nat →
  (a + m ≤ S (length normal_samples))%nat →
  ∃ paths,
    for_each (euler_step volatility time_step normal_samples)
             (seq a m) rate_paths = Ok paths ∧
    length paths = length rate_paths ∧
    (∀ t, (t < a)%nat → paths !! t = rate_paths !! t) ∧
    (∀ t, (a + m ≤ t)%nat → paths !! t = rate_paths !! t) ∧
    (∀ t, (a ≤ t < a + m)%nat →
       ∃ prev z c,
         paths !! (t - 1)%nat = Some prev ∧
         normal_samples !! (t - 1)%nat = Some z ∧
         paths !! t = Some c ∧
         ∀ i, c !!! i
              = vasicek_step volatility time_step (prev !!! i) (z !!! i)).
Proof.
  induction m as [|m IH]; intros a rate_paths Ha Hlen Hnorm.
  - exists rate_paths. repeat split; try done. intros t ?; lia.
  - destruct (lookup_lt_is_Some_2 normal_samples (a - 1)) as [z Hz]; [lia|].
    destruct (lookup_lt_is_Some_2 rate_paths (a - 1)) as [prev Hprev]; [lia|].
    destruct (euler_step_ok volatility time_step normal_samples rate_paths
                a z prev) as (c & Hstep & Hc); [lia|lia|done|done|].
    destruct (IH (S a) (<[a := c]> rate_paths)) as
      (paths & Hrun & Hlen' & Hbefore & Hafter & Hrec);
      [lia|rewrite length_insert; lia|lia|].
    exists paths. simpl. rewrite Hstep. simpl. rewrite Hrun.
    rewrite length_insert in Hlen'.
    split; [done|]. split; [done|]. split; [|split].
    + intros t Ht. rewrite Hbefore by lia.
      apply list_lookup_insert_ne. lia.
    + intros t Ht. rewrite Hafter by lia.
      apply list_lookup_insert_ne. lia.
    + intros t Ht. destruct (decide (t = a)) as [->|Hne].
      * exists prev, z, c. repeat split; try done.
        -- rewrite Hbefore by lia. rewrite list_lookup_insert_ne by lia. done.
        -- rewrite Hbefore by lia. apply list_lookup_insert_eq. lia.
      * apply Hrec. lia.
Qed.
End simulator.

Section simulator_results.
Context {F : Type} `{Arithmetic F}.

Lemma length_np_linspace (start stop : F) (num : Z) (g : list F) :
  np_linspace start stop num = Ok g → length g = Z.to_nat num.
Proof.
  unfold np_linspace. destruct (num <? 0); [done|].
  intros [= <-].
  repeat match goal with
         | |- context [if ?b then _ else _] => destruct b
         end;
    rewrite ?length_insert, !length_map, length_seq; done.
Qed.

Lemma np_linspace_last (start stop : F) (num : Z) (g : list F) :
  np_linspace start stop num = Ok g → 1 < num → last g = Some stop.
Proof.
  intros Hg Hnum. pose proof (length_np_linspace _ _ _ _ Hg) as Hlen.
  unfold np_linspace in Hg.
  destruct (Z.ltb_spec num 0) as [?|_]; [lia|].
  destruct (Z.ltb_spec 1 num) as [_|?]; [|lia].
  injection Hg as <-. rewrite last_lookup, Hlen.
  rewrite length_insert in Hlen.
  replace (Nat.pred (Z.to_nat num)) with (Z.to_nat (num - 1)) by lia.
  apply list_lookup_insert_eq. lia.
Qed.

Lemma generate_normal_samples_ok (sampler : normal_sampler F)
    (shocks : nat → nat → F) (dim : Z) (n : nat) :
  sampler dim n = Ok shocks →
  ∃ cols,
    generate_normal_samples sampler dim n = Ok cols ∧
    length cols = Z.to_nat dim ∧
    ∀ j, (j < Z.to_nat dim)%nat →
      cols !! j = Some (fun_to_vec (λ i : fin n, shocks i j)).
Proof.
  intros Hsampler. unfold generate_normal_samples. rewrite Hsampler.
  eexists. split; [reflexivity|]. split.
  - by rewrite length_map, length_seq.
  - intros j Hj. by rewrite list_lookup_fmap, lookup_seq_lt.
Qed.

Lemma simulate_ok (total_time initial_rate volatility : F) (n : nat)
    (time_step : F) (sampler : normal_sampler F) (shocks : nat → nat → F)
    (k : Z) :
  num_steps_of total_time time_step = Ok k → 0 ≤ k →
  sampler k n = Ok shocks →
  ∃ paths grid,
    simulate_short_rate_quasi_mc total_time initial_rate volatility n
      time_step sampler = Ok (paths, grid) ∧
    np_linspace (of_int 0) total_time (k + 1) = Ok grid ∧
    length paths = S (Z.to_nat k) ∧
    length grid = S (Z.to_nat k) ∧
    paths !! 0%nat = Some (vreplicate n initial_rate) ∧
    ∀ t, (1 ≤ t ≤ Z.to_nat k)%nat →
      ∃ prev c,
        paths !! (t - 1)%nat = Some prev ∧ paths !! t = Some c ∧
        ∀ i : fin n,
          c !!! i = vasicek_step volatility time_step (prev !!! i)
                      (shocks i (t - 1)%nat).
Proof.
  intros Hk Hpos Hsampler.
  unfold simulate_short_rate_quasi_mc. rewrite Hk. simpl.
  destruct (np_linspace (of_int 0) total_time (k + 1)) as [grid|e] eqn:Hgrid.
  2:{ unfold np_linspace in Hgrid.
      destruct (Z.ltb_spec (k + 1) 0); [lia|done]. }
  simpl.
  destruct (generate_normal_samples_ok sampler shocks k n Hsampler)
    as (normal & Hnormal & Hlen_normal & Hcols).
  rewrite Hnormal. simpl.
  replace (Z.to_nat (k + 1)) with (S (Z.to_nat k)) by lia.
  destruct (euler_loop volatility time_step normal (Z.to_nat k) 1
              (np_full n (S (Z.to_nat k)) initial_rate))
    as (paths & Hrun & Hlen & Hbefore & _ & Hrec).
  { lia. }
  { unfold np_full. rewrite length_replicate. lia. }
  { lia. }
  rewrite Hrun. simpl. exists paths, grid.
  unfold np_full in Hlen. rewrite length_replicate in Hlen.
  split; [done|]. split; [done|]. split; [done|]. split.
  { apply length_np_linspace in Hgrid. lia. }
  split.
  { rewrite Hbefore by lia. done. }
  intros t Ht. destruct (Hrec t) as (prev & z & c & Hprev & Hz & Hc & Hval).
  { lia. }
  exists prev, c. split; [done|]. split; [done|]. intros i.
  rewrite Hval. f_equal.
  rewrite Hcols in Hz by lia.
  injection Hz as <-. by rewrite lookup_fun_to_vec.
Qed.
End simulator_results.

(** ** The path simulator on an ensemble of integers *)

Section simulator_int64.
Context {F : Type} `{Arithmetic F}.

Lemma euler_step_int64_ok {n} (volatility time_step : F)
    (normal_samples : list (vec F n)) (rate_paths : list (vec Z n))
    (step : nat) (z : vec F n) (prev : vec Z n) :
  (1 ≤ step)%nat → (step < length rate_paths)%nat →
  normal_samples !! (step - 1)%nat = Some z →
  rate_paths !! (step - 1)%nat = Some prev →
  ∃ c, euler_step_int64 volatility time_step normal_samples rate_paths step
         = Ok (<[step := c]> rate_paths) ∧
       ∀ i, c !!! i
            = to_int64 (vasicek_step volatility time_step
                          (of_int (prev !!! i)) (z !!! i)).
Proof.
  intros Hstep Hlen Hz Hprev. unfold euler_step_int64.
  replace (Z.of_nat step - 1) with (Z.of_nat (step - 1)) by lia.
  rewrite (np_getcol_lookup _ _ _ Hz). cbn [mbind result_bind].
  rewrite (np_getcol_lookup _ _ _ Hprev). cbn [mbind result_bind].
  rewrite np_setcol_nat by done.
  eexists. split; [reflexivity|].
  intros i. unfold vasicek_step.
  by rewrite vlookup_map, !vlookup_zip_with, !vlookup_map.
Qed.

Lemma euler_loop_int64 {n} (volatility time_step : F)
    (normal_samples : list (vec F n)) (m : nat) :
  ∀ (a : nat) (rate_paths : list (vec Z n)),
  (1 ≤ a)%nat → (a + m ≤ length rate_paths)%nat →
  (a + m ≤ S (length normal_samples))%nat →
  ∃ paths,
    for_each (euler_step_int64 volatility time_step normal_samples)
             (seq a m) rate_paths = Ok paths ∧
    length paths = length rate_paths ∧
    (∀ t, (t < a)%nat → paths !! t = rate_paths !! t) ∧
    (∀ t, (a ≤ t < a + m)%nat →
       ∃ prev z c,
         paths !! (t - 1)%nat = Some prev ∧
         normal_samples !! (t - 1)%nat = Some z ∧
         paths !! t = Some c ∧
         ∀ i, c !!! i
              = to_int64 (vasicek_step volatility time_step
                            (of_int (prev !!! i)) (z !!! i))).
Proof.
  induction m as [|m IH]; intros a rate_paths Ha Hlen Hnorm.
  - exists rate_paths. repeat split; try done. intros t ?; lia.
  - destruct (lookup_lt_is_Some_2 normal_samples (a - 1)) as [z Hz]; [lia|].
    destruct (lookup_lt_is_Some_2 rate_paths (a - 1)) as [prev Hprev]; [lia|].
    destruct (euler_step_int64_ok volatility time_step normal_samples
                rate_paths a z prev) as (c & Hstep & Hc); [lia|lia|done|done|].
    destruct (IH (S a) (<[a := c]> rate_paths)) as
      (paths & Hrun & Hlen' & Hbefore & Hrec);
      [lia|rewrite length_insert; lia|lia|].
    exists paths. cbn [seq for_each]. rewrite Hstep.
    cbn [mbind result_bind]. rewrite Hrun.
    rewrite length_insert in Hlen'.
    split; [done|]. split; [done|]. split.
    + intros t Ht. rewrite Hbefore by lia.
      apply list_lookup_insert_ne. lia.
    + intros t Ht. destruct (decide (t = a)) as [->|Hne].
      * exists prev, z, c. repeat split; try done.
        -- rewrite Hbefore by lia. rewrite list_lookup_insert_ne by lia. done.
        -- rewrite Hbefore by lia. apply list_lookup_insert_eq. lia.
      * apply Hrec. lia.
Qed.

(** On an ensemble of integers every update stores the cast of the value
    that the recurrence gives from the integer stored before. *)
Lemma simulate_int64_ok (total_time : F) (initial_rate : Z) (volatility : F)
    (n : nat) (time_step : F) (sampler : normal_sampler F)
    (shocks : nat → nat → F) (k : Z) :
  num_steps_of total_time time_step = Ok k → 0 ≤ k →
  sampler k n = Ok shocks →
  ∃ paths grid,
    simulate_short_rate_quasi_mc_int64 total_time initial_rate volatility n
      time_step sampler = Ok (paths, grid) ∧
    length paths = S (Z.to_nat k) ∧
    paths !! 0%nat = Some (vreplicate n initial_rate) ∧
    ∀ t, (1 ≤ t ≤ Z.to_nat k)%nat →
      ∃ prev c,
        paths !! (t - 1)%nat = Some prev ∧ paths !! t = Some c ∧
        ∀ i : fin n,
          c !!! i
          = to_int64 (vasicek_step volatility time_step
                        (of_int (prev !!! i)) (shocks i (t - 1)%nat)).
Proof.
  intros Hk Hpos Hsampler.
  unfold simulate_short_rate_quasi_mc_int64. rewrite Hk.
  cbn [mbind result_bind].
  destruct (np_linspace (of_int 0) total_time (k + 1)) as [grid|e] eqn:Hgrid.
  2:{ unfold np_linspace in Hgrid.
      destruct (Z.ltb_spec (k + 1) 0); [lia|done]. }
  cbn [mbind result_bind].
  destruct (generate_normal_samples_ok sampler shocks k n Hsampler)
    as (normal & Hnormal & Hlen_normal & Hcols).
  rewrite Hnormal. cbn [mbind result_bind].
  replace (Z.to_nat (k + 1)) with (S (Z.to_nat k)) by lia.
  destruct (euler_loop_int64 volatility time_step normal (Z.to_nat k) 1
              (np_full n (S (Z.to_nat k)) initial_rate))
    as (paths & Hrun & Hlen & Hbefore & Hrec).
  { lia. }
  { unfold np_full. rewrite length_replicate. lia. }
  { lia. }
  rewrite Hrun. cbn [mbind result_bind]. exists paths, grid.
  unfold np_full in Hlen. rewrite length_replicate in Hlen.
  split; [done|]. split; [done|]. split.
  { rewrite Hbefore by lia. done. }
  intros t Ht. destruct (Hrec t) as (prev & z & c & Hprev & Hz & Hc & Hval).
  { lia. }
  exists prev, c. split; [done|]. split; [done|]. intros i.
  rewrite Hval. do 2 f_equal.
  rewrite Hcols in Hz by lia.
  injection Hz as <-. by rewrite lookup_fun_to_vec.
Qed.
End simulator_int64.

(** ** The discounting engine *)

Section discounting.
Context {F : Type} `{Float64 F}.

Lemma length_cumsum_from {n} (a : list (vec F n)) :
  ∀ acc, length (cumsum_from acc a) = length a.
Proof. induction a as [|c a IH]; intros acc; simpl; [done|by rewrite IH]. Qed.

Lemma length_np_cumsum {n} (a : list (vec F n)) :
  length (np_cumsum a) = length a.
Proof. destruct a; simpl; [done|by rewrite length_cumsum_from]. Qed.

Lemma cumsum_from_head {n} (a : list (vec F n)) (acc c : vec F n) :
  a !! 0%nat = Some c →
  cumsum_from acc a !! 0%nat = Some (vzip_with fadd acc c).
Proof. destruct a; simpl; [done|]. by intros [= ->]. Qed.

Lemma cumsum_from_succ {n} (a : list (vec F n)) :
  ∀ (acc : vec F n) (t : nat) (s c : vec F n),
  cumsum_from acc a !! t = Some s → a !! S t = Some c →
  cumsum_from acc a !! S t = Some (vzip_with fadd s c).
Proof.
  induction a as [|c0 a IH]; intros acc t s c; [done|].
  destruct t as [|t]; simpl.
  - intros [= <-] Hc. by apply cumsum_from_head.
  - apply IH.
Qed.

Lemma np_cumsum_head {n} (a : list (vec F n)) :
  np_cumsum a !! 0%nat = a !! 0%nat.
Proof. by destruct a. Qed.

Lemma np_cumsum_succ {n} (a : list (vec F n)) (t : nat) (s c : vec F n) :
  np_cumsum a !! t = Some s → a !! S t = Some c →
  np_cumsum a !! S t = Some (vzip_with fadd s c).
Proof.
  destruct a as [|c0 a]; [done|]. destruct t as [|t]; simpl.
  - intros [= <-] Hc. by apply cumsum_from_head.
  - apply cumsum_from_succ.
Qed.

Lemma length_np_diff (g : list F) : length (np_diff g) = (length g - 1)%nat.
Proof. unfold np_diff. rewrite length_zip_with, length_drop. lia. Qed.

Lemma np_diff_lookup (g : list F) (j : nat) :
  (S j < length g)%nat →
  np_diff g !! j = Some (g !!! S j - g !!! j)%f.
Proof.
  intros Hj. unfold np_diff.
  destruct (lookup_lt_is_Some_2 g j) as [lo Hlo]; [lia|].
  destruct (lookup_lt_is_Some_2 g (S j)) as [hi Hhi]; [lia|].
  rewrite lookup_zip_with, Hlo, lookup_drop. simpl.
  replace (1 + j)%nat with (S j) by lia. rewrite Hhi. simpl.
  by rewrite (list_lookup_total_correct _ _ _ Hlo),
             (list_lookup_total_correct _ _ _ Hhi).
Qed.

Lemma discount_factors_ok {n} (rate_paths : list (vec F n))
    (time_grid : list F) :
  length rate_paths = length time_grid →
  ∃ dfs,
    compute_discount_factors rate_paths time_grid = Ok dfs ∧
    length dfs = (length rate_paths - 1)%nat ∧
    ∀ (t : nat), (t < length dfs)%nat →
      ∃ c, dfs !! t = Some c ∧
        ∀ i : fin n,
          c !!! i
          = fexp (- left_riemann (entry rate_paths i)
                                 (λ j, time_grid !!! j) t)%f.
Proof.
  intros Hshape. unfold compute_discount_factors, rate_integral, np_mul_broadcast.
  assert (length (np_init rate_paths) = (length rate_paths - 1)%nat)
    as Hinit by (unfold np_init; rewrite length_take; lia).
  rewrite decide_True by (rewrite length_np_diff; lia). simpl.
  eexists. split; [reflexivity|].
  set (integrand := zip_with _ _ _).
  assert (length integrand = (length rate_paths - 1)%nat) as Hlen.
  { unfold integrand. rewrite length_zip_with, length_np_diff. lia. }
  assert (∀ j, (j < length rate_paths - 1)%nat →
            ∃ c, rate_paths !! j = Some c ∧
                 integrand !! j
                 = Some (vmap (λ r, r * (time_grid !!! S j
                                         - time_grid !!! j))%f c))
    as Hintegrand.
  { intros j Hj.
    destruct (lookup_lt_is_Some_2 rate_paths j) as [c Hc]; [lia|].
    exists c. split; [done|]. unfold integrand.
    rewrite lookup_zip_with. unfold np_init.
    rewrite lookup_take_lt, Hc by lia. simpl.
    rewrite np_diff_lookup by lia. done. }
  split; [by rewrite length_map, length_np_cumsum|].
  rewrite length_map, length_np_cumsum, Hlen.
  intros t Ht.
  assert (∃ s, np_cumsum integrand !! t = Some s ∧
               ∀ i : fin n,
                 s !!! i = left_riemann (entry rate_paths i)
                             (λ j, time_grid !!! j) t)
    as (s & Hs & Hval).
  { induction t as [|t IH].
    - destruct (Hintegrand 0%nat) as (c & Hc & Hi); [lia|].
      exists (vmap (λ r, r * (time_grid !!! 1%nat - time_grid !!! 0%nat))%f c).
      split; [by rewrite np_cumsum_head|].
      intros i. rewrite vlookup_map. simpl. unfold entry.
      by rewrite (list_lookup_total_correct _ _ _ Hc).
    - destruct IH as (s & Hs & Hval); [lia|].
      destruct (Hintegrand (S t)) as (c & Hc & Hi); [lia|].
      eexists. split; [by eapply np_cumsum_succ|].
      intros i. rewrite vlookup_zip_with, vlookup_map, Hval. simpl.
      unfold entry. by rewrite (list_lookup_total_correct _ _ _ Hc). }
  eexists. split; [by rewrite list_lookup_fmap, Hs|].
  intros i. by rewrite vlookup_map, Hval.
Qed.
End discounting.

(** ** The estimator *)

Section estimator.
Context {F : Type} `{Float64 F}.

Lemma monte_carlo_ok (total_time initial_rate volatility : F) (n : nat)
    (time_step : F) (sampler : normal_sampler F) (shocks : nat → nat → F)
    (k : Z) (closed_form : F) :
  num_steps_of total_time time_step = Ok k → 1 ≤ k →
  sampler k n = Ok shocks →
  vasicek_bond_price total_time initial_rate volatility KAPPA THETA
    = Ok closed_form →
  ∃ paths grid dfs finals,
    simulate_short_rate_quasi_mc total_time initial_rate volatility n
      time_step sampler = Ok (paths, grid) ∧
    compute_discount_factors paths grid = Ok dfs ∧
    np_getcol dfs (-1) = Ok finals ∧
    (∀ i : fin n,
       finals !!! i
       = fexp (- left_riemann (entry paths i) (λ j, grid !!! j)
                   (Z.to_nat k - 1))%f) ∧
    monte_carlo_bond_price total_time initial_rate volatility n time_step
      sampler
    = Ok (py_round_ndigits
            (np_mean finals - (np_mean finals - closed_form))%f 10,
          py_round_ndigits (np_var finals) 10).
Proof.
  intros Hk Hpos Hsampler Hcf.
  destruct (simulate_ok total_time initial_rate volatility n time_step
              sampler shocks k Hk ltac:(lia) Hsampler)
    as (paths & grid & Hsim & _ & Hlen_paths & Hlen_grid & _).
  destruct (discount_factors_ok paths grid ltac:(congruence))
    as (dfs & Hdfs & Hlen_dfs & Hval).
  destruct (Hval (Z.to_nat k - 1)%nat ltac:(lia)) as (finals & Hfinals & Hf).
  assert (np_getcol dfs (-1) = Ok finals) as Hlast.
  { apply np_getcol_last.
    replace (length dfs - 1)%nat with (Z.to_nat k - 1)%nat by lia. done. }
  exists paths, grid, dfs, finals.
  split; [done|]. split; [done|]. split; [done|]. split; [done|].
  unfold monte_carlo_bond_price. rewrite Hsim. simpl.
  rewrite Hdfs. simpl. rewrite Hlast. simpl. rewrite Hcf. done.
Qed.

(** With no time step the array of discount factors has no column, and
    taking its last column raises. *)
Lemma monte_carlo_no_steps (total_time initial_rate volatility : F)
    (n : nat) (time_step : F) (sampler : normal_sampler F)
    (shocks : nat → nat → F) :
  num_steps_of total_time time_step = Ok 0 →
  sampler 0 n = Ok shocks →
  monte_carlo_bond_price total_time initial_rate volatility n time_step
    sampler = Raise IndexError.
Proof.
  intros Hk Hsampler.
  destruct (simulate_ok total_time initial_rate volatility n time_step
              sampler shocks 0 Hk ltac:(lia) Hsampler)
    as (paths & grid & Hsim & _ & Hlen_paths & Hlen_grid & _).
  destruct (discount_factors_ok paths grid ltac:(congruence))
    as (dfs & Hdfs & Hlen_dfs & _).
  rewrite Hlen_paths in Hlen_dfs. destruct dfs; [|done].
  unfold monte_carlo_bond_price. rewrite Hsim.
  cbn [mbind result_bind]. rewrite Hdfs.
  cbn [mbind result_bind]. by rewrite np_getcol_empty.
Qed.
End estimator.

(** ** Exact real arithmetic *)

Lemma R_round_IZR (z : Z) : R_round (IZR z) = z.
Proof.
  unfold R_round. rewrite ZfloorZ.
  destruct (Rlt_dec _ _) as [_|Hn]; [done|]. exfalso. apply Hn. lra.
Qed.

Lemma R_round_nearest (x : R) : (Rabs (IZR (R_round x) - x) <= 1 / 2)%R.
Proof.
  pose proof (Zfloor_bound x) as [Hlo Hhi]. unfold R_round.
  destruct (Rlt_dec (x - IZR (Zfloor x)) (1 / 2)) as [Hlt|Hge].
  { apply Rabs_le. lra. }
  destruct (Rlt_dec (1 / 2) (x - IZR (Zfloor x))) as [Hgt|Hle].
  { rewrite plus_IZR. apply Rabs_le. lra. }
  destruct (Z.even (Zfloor x)); [|rewrite plus_IZR]; apply Rabs_le; lra.
Qed.




Lemma num_steps_of_R (total_time time_step : R) (k : Z) :
  time_step ≠ 0%R → total_time = (IZR k * time_step)%R →
  num_steps_of total_time time_step = Ok k.
Proof.
  intros Hdt ->. unfold num_steps_of, py_truediv. simpl.
  rewrite bool_decide_eq_false_2 by done. simpl.
  replace (IZR k * time_step / time_step)%R with (IZR k) by (by field).
  by rewrite R_round_IZR.
Qed.

Lemma KAPPA_R : KAPPA = (1 / 10)%R.
Proof. unfold KAPPA. simpl. unfold Q2R. simpl. lra. Qed.

Lemma vasicek_bond_price_R (T r0 sigma : R) :
  ∃ closed_form : R,
    vasicek_bond_price T r0 sigma KAPPA THETA = Ok closed_form.
Proof.
  unfold vasicek_bond_price, py_truediv. simpl.
  rewrite bool_decide_eq_false_2; [simpl; by eexists|].
  rewrite ?KAPPA_R. unfold Q2R. simpl. lra.
Qed.

Lemma vasicek_step_R (volatility time_step r z : R) :
  vasicek_step volatility time_step r z
  = (r + 0.1 * (0.03 - r) * time_step + volatility * z * sqrt time_step)%R.
Proof. unfold vasicek_step. simpl. unfold Q2R. simpl. lra. Qed.

Lemma foldl_Rplus (l : list R) (a : R) :
  foldl Rplus a l = (a + Rsum l)%R.
Proof.
  revert a. induction l as [|x l IH]; intros a; simpl.
  - lra.
  - rewrite IH. unfold Rsum. simpl. lra.
Qed.

Lemma np_mean_R {n} (v : vec R n) : np_mean v = Rmean (vec_to_list v).
Proof.
  unfold np_mean, np_sum, Rmean. simpl.
  rewrite foldl_Rplus, length_vec_to_list, <- INR_IZR_INZ.
  by rewrite Rplus_0_l.
Qed.

Lemma np_var_R {n} (v : vec R n) :
  np_var v = mean_squared_deviation (vec_to_list v).
Proof.
  unfold np_var, mean_squared_deviation.
  rewrite !np_mean_R, !vec_to_list_map, map_map. reflexivity.
Qed.



(** ** The properties of the specification *)

Section simulator_properties.
Context {F : Type} `{Arithmetic F}.

Lemma generate_normal_samples_ext (sampler sampler' : normal_sampler F)
    (shocks shocks' : nat → nat → F) (dim : Z) (n : nat) :
  sampler dim n = Ok shocks → sampler' dim n = Ok shocks' →
  (∀ (i : fin n) (j : nat), (j < Z.to_nat dim)%nat →
     shocks' i j = shocks i j) →
  generate_normal_samples sampler' dim n
  = generate_normal_samples sampler dim n.
Proof.
  intros Hsampler Hsampler' Hext. unfold generate_normal_samples.
  rewrite Hsampler, Hsampler'. simpl. f_equal.
  apply list_eq. intros j. rewrite !list_lookup_fmap.
  destruct (seq 0 (Z.to_nat dim) !! j) as [j'|] eqn:Hj; [|done]. simpl.
  apply lookup_seq in Hj as [-> Hj]. f_equal.
  apply vec_eq. intros i. rewrite !lookup_fun_to_vec. by apply Hext.
Qed.

(** X30: for a float initial rate the simulated paths obey the recurrence
    [r + (0.1 * (0.03 - r) * dt + sigma * (z * sqrt dt))] of [vasicek_step]
    at every step [t = 1 .. num_steps], the new column being computed from
    the previous column and from column [t - 1] of the shock matrix only;
    the ensemble is a function of the entries of the shock matrix. *)
Theorem simulate_recurrence (total_time initial_rate volatility : F)
    (n : nat) (time_step : F) (sampler : normal_sampler F)
    (shocks : nat → nat → F) (k : Z) :
  num_steps_of total_time time_step = Ok k → 0 ≤ k →
  sampler k n = Ok shocks →
  ∃ paths grid,
    simulate_short_rate_quasi_mc total_time initial_rate volatility n
      time_step sampler = Ok (paths, grid) ∧
    (∀ (i : fin n) (t : nat), (1 ≤ t ≤ Z.to_nat k)%nat →
       entry paths i t
       = vasicek_step volatility time_step (entry paths i (t - 1))
           (shocks i (t - 1)%nat)) ∧
    (∀ (sampler' : normal_sampler F) (shocks' : nat → nat → F),
       sampler' k n = Ok shocks' →
       (∀ (i : fin n) (j : nat), (j < Z.to_nat k)%nat →
          shocks' i j = shocks i j) →
       simulate_short_rate_quasi_mc total_time initial_rate volatility n
         time_step sampler' = Ok (paths, grid)).
Proof.
  intros Hk Hpos Hsampler.
  destruct (simulate_ok total_time initial_rate volatility n time_step
              sampler shocks k Hk Hpos Hsampler)
    as (paths & grid & Hsim & _ & _ & _ & _ & Hrec).
  exists paths, grid. split; [done|]. split.
  - intros i t Ht. destruct (Hrec t Ht) as (prev & c & Hprev & Hc & Hval).
    unfold entry.
    rewrite (list_lookup_total_correct _ _ _ Hprev),
            (list_lookup_total_correct _ _ _ Hc).
    apply Hval.
  - intros sampler' shocks' Hsampler' Hext. rewrite <- Hsim.
    unfold simulate_short_rate_quasi_mc. rewrite Hk. simpl.
    by rewrite (generate_normal_samples_ext sampler sampler' shocks shocks').
Qed.

Lemma py_index_nat_inv (len j i : nat) :
  py_index len (Z.of_nat j) = Ok i → i = j.
Proof.
  unfold py_index. destruct (Z.ltb_spec (Z.of_nat j) 0); [lia|].
  destruct (_ && _); [|done]. intros [= <-]. lia.
Qed.

Lemma euler_step_column_0 {n} (volatility time_step : F)
    (normal_samples rate_paths rate_paths' : list (vec F n)) (step : nat) :
  (1 ≤ step)%nat →
  euler_step volatility time_step normal_samples rate_paths step
    = Ok rate_paths' →
  rate_paths' !! 0%nat = rate_paths !! 0%nat.
Proof.
  intros Hstep. unfold euler_step.
  destruct (np_getcol normal_samples _) as [z|]; [simpl|done].
  destruct (np_getcol rate_paths _) as [prev|]; [simpl|done].
  unfold np_setcol.
  destruct (py_index _ _) as [i|] eqn:Hi; [simpl|done].
  apply py_index_nat_inv in Hi as ->. intros [= <-].
  apply list_lookup_insert_ne. lia.
Qed.

(** C6: every path of the ensemble starts at the initial rate, and no
    update of the loop, whose steps are [1 .. num_steps], writes to
    column 0. *)
Theorem simulate_initial_condition (total_time initial_rate volatility : F)
    (n : nat) (time_step : F) (sampler : normal_sampler F)
    (shocks : nat → nat → F) (k : Z) :
  num_steps_of total_time time_step = Ok k → 0 ≤ k →
  sampler k n = Ok shocks →
  (∃ paths grid,
     simulate_short_rate_quasi_mc total_time initial_rate volatility n
       time_step sampler = Ok (paths, grid) ∧
     ∀ i : fin n, entry paths i 0 = initial_rate) ∧
  (∀ (normal_samples rate_paths rate_paths' : list (vec F n)) (step : nat),
     step ∈ seq 1 (Z.to_nat k) →
     euler_step volatility time_step normal_samples rate_paths step
       = Ok rate_paths' →
     rate_paths' !! 0%nat = rate_paths !! 0%nat).
Proof.
  intros Hk Hpos Hsampler. split.
  - destruct (simulate_ok total_time initial_rate volatility n time_step
                sampler shocks k Hk Hpos Hsampler)
      as (paths & grid & Hsim & _ & _ & _ & Hzero & _).
    exists paths, grid. split; [done|]. intros i. unfold entry.
    rewrite (list_lookup_total_correct _ _ _ Hzero).
    apply vlookup_replicate.
  - intros normal_samples rate_paths rate_paths' step Hin.
    apply elem_of_seq in Hin. apply euler_step_column_0. lia.
Qed.

End simulator_properties.

Section properties.
Context {F : Type} `{Float64 F}.

(** C5: the discount factors of a path are the exponentials of the negated
    left Riemann sums of its rates over the grid; the last column, taken by
    the estimator as [discount_factors[:, -1]], is built from the rates at
    the grid points [0 .. num_steps - 1]. *)
Theorem discount_factors_left_riemann {n} (rate_paths : list (vec F n))
    (time_grid : list F) (num_steps : nat) :
  length rate_paths = S num_steps → length time_grid = S num_steps →
  (1 ≤ num_steps)%nat →
  ∃ dfs final,
    compute_discount_factors rate_paths time_grid = Ok dfs ∧
    length dfs = num_steps ∧
    (∀ (i : fin n) (t : nat), (t < num_steps)%nat →
       entry dfs i t
       = fexp (- left_riemann (entry rate_paths i)
                              (λ j, time_grid !!! j) t)%f) ∧
    np_getcol dfs (-1) = Ok final ∧
    (∀ i : fin n,
       final !!! i
       = fexp (- left_riemann (entry rate_paths i)
                              (λ j, time_grid !!! j) (num_steps - 1))%f).
Proof.
  intros Hpaths Hgrid Hsteps.
  destruct (discount_factors_ok rate_paths time_grid ltac:(congruence))
    as (dfs & Hdfs & Hlen & Hval).
  rewrite Hpaths in Hlen. replace (S num_steps - 1)%nat with num_steps in Hlen by lia.
  destruct (Hval (num_steps - 1)%nat ltac:(lia)) as (final & Hfinal & Hf).
  exists dfs, final. split; [done|]. split; [done|]. split; [|split; [|done]].
  - intros i t Ht. destruct (Hval t ltac:(lia)) as (c & Hc & Hcv).
    unfold entry at 1. rewrite (list_lookup_total_correct _ _ _ Hc).
    apply Hcv.
  - apply np_getcol_last. by rewrite Hlen.
Qed.
End properties.

Ltac in_fields :=
  unfold required_fields;
  repeat first [apply list_elem_of_here | apply list_elem_of_further].

Section entry_point.
Context {F : Type} `{Float64 F}.

Lemma run_fields (input_data : gmap string F)
    (solver_params : option (gmap string Z)) (sampler : normal_sampler F)
    (initial_rate volatility months : F) :
  input_data !! "Initial Interest Rate" = Some initial_rate →
  input_data !! "Volatility" = Some volatility →
  input_data !! "Maturity Time" = Some months →
  run input_data solver_params sampler
  = (params ← from_option Ok (Raise AttributeError) solver_params;
     num_simulations ←
       next_power_of_2 (default 10000 (params !! "NumberOfSimulations"));
     '(estimated_price, variance) ←
       monte_carlo_bond_price (months / of_int 12)%f initial_rate volatility
         (Z.to_nat num_simulations) (lit 0.01) sampler;
     Ok {| bond_price := estimated_price; variance := variance |}).
Proof.
  intros Hrate Hvol Hmonths. unfold run, dict_getitem.
  by rewrite Hrate, Hvol, Hmonths.
Qed.

(** C7: when a required key is absent from the scenario record, [run]
    raises the lookup failure of an absent required key and returns no
    record, whatever the solver configuration. *)
Theorem run_missing_field (input_data : gmap string F)
    (solver_params : option (gmap string Z)) (sampler : normal_sampler F)
    (key : string) :
  key ∈ required_fields → input_data !! key = None →
  ∃ absent,
    absent ∈ required_fields ∧ input_data !! absent = None ∧
    run input_data solver_params sampler = Raise (KeyError absent).
Proof.
  intros Hkey Hnone. unfold run, dict_getitem.
  destruct (input_data !! "Initial Interest Rate") as [r0|] eqn:Hrate.
  2:{ exists "Initial Interest Rate". split; [in_fields|done]. }
  destruct (input_data !! "Volatility") as [sigma|] eqn:Hvol.
  2:{ exists "Volatility". split; [in_fields|done]. }
  destruct (input_data !! "Maturity Time") as [months|] eqn:Hmonths.
  2:{ exists "Maturity Time". split; [in_fields|done]. }
  exfalso. unfold required_fields in Hkey.
  repeat (apply elem_of_cons in Hkey as [->|Hkey]; [congruence|]).
  by apply elem_of_nil in Hkey.
Qed.

(** C9: [run] divides the field [Maturity Time] by 12 and passes the
    quotient, the maturity in years, to [monte_carlo_bond_price]; the time
    grid of the simulation ends at this quotient, and the record that [run]
    returns is built from the paths simulated to it and from the closed-form
    price at it. *)
Theorem run_maturity_in_years (input_data : gmap string F)
    (params : gmap string Z) (sampler : normal_sampler F)
    (initial_rate volatility months : F) :
  input_data !! "Initial Interest Rate" = Some initial_rate →
  input_data !! "Volatility" = Some volatility →
  input_data !! "Maturity Time" = Some months →
  run input_data (Some params) sampler
  = (num_simulations ←
       next_power_of_2 (default 10000 (params !! "NumberOfSimulations"));
     '(estimated_price, variance) ←
       monte_carlo_bond_price (months / of_int 12)%f initial_rate volatility
         (Z.to_nat num_simulations) (lit 0.01) sampler;
     Ok {| bond_price := estimated_price; variance := variance |}) ∧
  ∀ (k p : Z) (shocks : nat → nat → F) (closed_form : F),
    num_steps_of (months / of_int 12)%f (lit 0.01) = Ok k → 1 ≤ k →
    next_power_of_2 (default 10000 (params !! "NumberOfSimulations"))
      = Ok p →
    sampler k (Z.to_nat p) = Ok shocks →
    vasicek_bond_price (months / of_int 12)%f initial_rate volatility
      KAPPA THETA = Ok closed_form →
    ∃ paths grid dfs finals,
      simulate_short_rate_quasi_mc (months / of_int 12)%f initial_rate
        volatility (Z.to_nat p) (lit 0.01) sampler = Ok (paths, grid) ∧
      last grid = Some (months / of_int 12)%f ∧
      compute_discount_factors paths grid = Ok dfs ∧
      np_getcol dfs (-1) = Ok finals ∧
      run input_data (Some params) sampler
      = Ok {| bond_price :=
                py_round_ndigits
                  (np_mean finals - (np_mean finals - closed_form))%f 10;
              variance := py_round_ndigits (np_var finals) 10 |}.
Proof.
  intros Hrate Hvol Hmonths.
  rewrite (run_fields _ _ _ _ _ _ Hrate Hvol Hmonths). split; [done|].
  intros k p shocks closed_form Hk Hpos Hp Hsampler Hcf.
  destruct (monte_carlo_ok (months / of_int 12)%f initial_rate volatility
              (Z.to_nat p) (lit 0.01) sampler shocks k closed_form
              Hk Hpos Hsampler Hcf)
    as (paths & grid & dfs & finals & Hsim & Hdfs & Hlast & _ & Hmc).
  destruct (simulate_ok (months / of_int 12)%f initial_rate volatility
              (Z.to_nat p) (lit 0.01) sampler shocks k Hk ltac:(lia)
              Hsampler)
    as (paths' & grid' & Hsim' & Hgrid & _).
  rewrite Hsim in Hsim'. injection Hsim' as <- <-.
  exists paths, grid, dfs, finals.
  split; [done|]. split; [by eapply np_linspace_last; [done|lia]|].
  split; [done|]. split; [done|].
  cbn [from_option mbind result_bind]. rewrite Hp.
  cbn [mbind result_bind]. by rewrite Hmc.
Qed.

(** C10: with the solver configuration left at [None], [run] raises an
    attribute error for every scenario record that has its fields; a
    dictionary without the key [NumberOfSimulations] runs as one that
    requests 10000 simulations. *)
Theorem run_without_solver_params (input_data : gmap string F)
    (sampler : normal_sampler F) (initial_rate volatility months : F) :
  input_data !! "Initial Interest Rate" = Some initial_rate →
  input_data !! "Volatility" = Some volatility →
  input_data !! "Maturity Time" = Some months →
  run input_data None sampler = Raise AttributeError ∧
  ∀ params : gmap string Z,
    params !! "NumberOfSimulations" = None →
    run input_data (Some params) sampler
    = run input_data (Some (<["NumberOfSimulations" := 10000]> params))
        sampler.
Proof.
  intros Hrate Hvol Hmonths. split.
  - by rewrite (run_fields _ _ _ _ _ _ Hrate Hvol Hmonths).
  - intros params Hnone.
    rewrite !(run_fields _ _ _ _ _ _ Hrate Hvol Hmonths). simpl.
    by rewrite Hnone, lookup_insert_eq.
Qed.
End entry_point.

(** ** The estimator in exact arithmetic *)





(** ** An integer initial rate *)

Lemma R_to_int64_fraction (x : R) : (0 <= x < 1)%R → R_to_int64 x = 0.
Proof.
  intros Hx. unfold R_to_int64, R_trunc.
  destruct (Rle_dec 0 x) as [_|?]; [|lra].
  rewrite (Zfloor_eq 0) by (simpl; lra). reflexivity.
Qed.

Lemma int_rate_steps : num_steps_of 0.02%R (lit 0.01) = Ok 2.
Proof. apply num_steps_of_R; simpl; unfold Q2R; simpl; lra. Qed.

(** In exact arithmetic and for every shock matrix: with the Python int 1
    as initial rate, no volatility, one path and a maturity of 0.02 years,
    the simulator stores 1, 0, 0, and the recurrence gives 0.99903 from the
    rate 1; with the float 1.0 as initial rate the same call stores 0.99903
    at step 1. *)
Lemma int_rate_truncated_exact (sampler : normal_sampler R)
    (shocks : nat → nat → R) :
  sampler 2 1%nat = Ok shocks →
  ∃ grid paths,
    simulate_short_rate_quasi_mc_int64 0.02%R 1 0%R 1 (lit 0.01) sampler
      = Ok ([ [# 1]; [# 0]; [# 0] ], grid) ∧
    vasicek_step 0%R (lit 0.01) (of_int 1) (shocks 0%nat 0%nat) = 0.99903%R ∧
    simulate_short_rate_quasi_mc 0.02%R 1%R 0%R 1 (lit 0.01) sampler
      = Ok (paths, grid) ∧
    entry paths 0%fin 1 = 0.99903%R.
Proof.
  intros Hsampler.
  destruct (simulate_int64_ok 0.02%R 1 0%R 1 (lit 0.01) sampler shocks 2
              int_rate_steps ltac:(lia) Hsampler)
    as (ints & grid & Hint & Hlen & Hzero & Hrec).
  destruct (simulate_ok 0.02%R 1%R 0%R 1 (lit 0.01) sampler shocks 2
              int_rate_steps ltac:(lia) Hsampler)
    as (paths & grid' & Hsim & Hgrid' & _ & _ & Hzero' & Hrec').
  assert (grid' = grid) as ->.
  { unfold simulate_short_rate_quasi_mc_int64 in Hint.
    rewrite int_rate_steps in Hint. cbn [mbind result_bind] in Hint.
    rewrite Hgrid' in Hint. cbn [mbind result_bind] in Hint.
    destruct (generate_normal_samples _ _ _); [|done].
    cbn [mbind result_bind] in Hint.
    destruct (for_each _ _ _); [|done]. by injection Hint. }
  assert (vasicek_step 0%R (lit 0.01) 1%R (shocks 0%nat 0%nat) = 0.99903%R)
    as Hstep.
  { rewrite vasicek_step_R. simpl. unfold Q2R. simpl. lra. }
  exists grid, paths. split; [|split; [exact Hstep|split; [exact Hsim|]]].
  - rewrite Hint. do 2 f_equal.
    destruct ints as [|c0 [|c1 [|c2 [|]]]]; try done.
    injection Hzero as ->.
    destruct (Hrec 1%nat ltac:(simpl; lia)) as (p1 & d1 & Hp1 & Hd1 & Hv1).
    destruct (Hrec 2%nat ltac:(simpl; lia)) as (p2 & d2 & Hp2 & Hd2 & Hv2).
    simpl in Hp1, Hd1, Hp2, Hd2.
    injection Hp1 as <-. injection Hd1 as <-.
    injection Hp2 as <-. injection Hd2 as <-.
    assert (c1 = [# 0]) as ->.
    { apply vec_eq. intros i. rewrite Hv1. inv_fin i; [|intros i; inv_fin i].
      apply R_to_int64_fraction. rewrite vasicek_step_R.
      simpl. unfold Q2R. simpl. lra. }
    assert (c2 = [# 0]) as ->.
    { apply vec_eq. intros i. rewrite Hv2. inv_fin i; [|intros i; inv_fin i].
      apply R_to_int64_fraction. rewrite vasicek_step_R.
      simpl. unfold Q2R. simpl. lra. }
    reflexivity.
  - destruct (Hrec' 1%nat ltac:(simpl; lia)) as (prev & c & Hprev & Hc & Hval).
    simpl in Hprev. rewrite Hzero' in Hprev. injection Hprev as <-.
    unfold entry. rewrite (list_lookup_total_correct _ _ _ Hc), Hval.
    exact Hstep.
Qed.

(** ** The program on binary64 numbers *)

(** C4: on binary64 numbers, with the Python int 1 as initial rate, no
    volatility, one path and the maturity of 0.24 months over the time step
    0.01, the ensemble is an array of integers and the simulator stores
    1, 0, 0: the value 0.99903 that the recurrence gives from the rate 1 is
    cut to 0 when it is assigned.  With the float 1.0 as initial rate the
    same call stores 0.99903 at step 1. *)
Theorem simulate_int_rate_truncated :
  simulate_short_rate_quasi_mc_int64 (lit 0.24 / of_int 12)%f 1 (lit 0) 1
    (lit 0.01) half_sampler
  = Ok ([ [# 1]; [# 0]; [# 0] ], [of_int 0; lit 0.01; lit 0.02]) ∧
  ∃ rate_2,
    simulate_short_rate_quasi_mc (lit 0.24 / of_int 12)%f (lit 1) (lit 0) 1
      (lit 0.01) half_sampler
    = Ok ([ [# lit 1]; [# lit 0.99903]; [# rate_2] ],
          [of_int 0; lit 0.01; lit 0.02]).
Proof.
  split.
  - vm_compute. reflexivity.
  - eexists. vm_compute. reflexivity.
Qed.





(** The two subtractions round for finite numbers too: with a mean of ten
    million the adjusted estimate is a multiple of [2 ** -29], and it is
    more than [10 ** -10] away from a closed-form price of 0.97. *)
Example adjusted_mc_estimate_rounds :
  PrimFloat.ltb (lit 0.0000000001)
    (PrimFloat.abs
       (adjusted_mc_estimate [# of_int 10000000] (lit 0.97) - lit 0.97)%f)
  = true.
Proof. reflexivity. Qed.


(** ** The properties at concrete inputs *)

Lemma example_scenario_steps :
  num_steps_of (12%R / of_int 12)%f (lit 0.01) = Ok 100.
Proof.
  apply num_steps_of_R; simpl; unfold Q2R; simpl; lra.
Qed.

Lemma simulate_recurrence_witness :
  ∃ paths grid,
    simulate_short_rate_quasi_mc 2%R 0.03%R 0.01%R 2 1%R zero_sampler
      = Ok (paths, grid) ∧
    (∀ (i : fin 2) (t : nat), (1 ≤ t ≤ Z.to_nat 2)%nat →
       entry paths i t
       = vasicek_step 0.01%R 1%R (entry paths i (t - 1)) 0%R) ∧
    (∀ (sampler' : normal_sampler R) (shocks' : nat → nat → R),
       sampler' 2 2%nat = Ok shocks' →
       (∀ (i : fin 2) (j : nat), (j < Z.to_nat 2)%nat → shocks' i j = 0%R) →
       simulate_short_rate_quasi_mc 2%R 0.03%R 0.01%R 2 1%R sampler'
         = Ok (paths, grid)).
Proof.
  apply (simulate_recurrence 2%R 0.03%R 0.01%R 2 1%R zero_sampler
           (λ _ _, 0%R) 2).
  - apply num_steps_of_R; lra.
  - lia.
  - reflexivity.
Defined.

Lemma simulate_initial_condition_witness :
  (∃ paths grid,
     simulate_short_rate_quasi_mc 2%R 0.03%R 0.01%R 2 1%R zero_sampler
       = Ok (paths, grid) ∧
     ∀ i : fin 2, entry paths i 0 = 0.03%R) ∧
  (∀ (normal_samples rate_paths rate_paths' : list (vec R 2)) (step : nat),
     step ∈ seq 1 (Z.to_nat 2) →
     euler_step 0.01%R 1%R normal_samples rate_paths step = Ok rate_paths' →
     rate_paths' !! 0%nat = rate_paths !! 0%nat).
Proof.
  apply (simulate_initial_condition 2%R 0.03%R 0.01%R 2 1%R zero_sampler
           (λ _ _, 0%R) 2).
  - apply num_steps_of_R; lra.
  - lia.
  - reflexivity.
Defined.

Lemma discount_factors_left_riemann_witness :
  ∃ dfs final,
    compute_discount_factors [ [# 0.03%R]; [# 0.02%R]; [# 0.01%R] ]
      [0%R; 1%R; 2%R] = Ok dfs ∧
    length dfs = 2%nat ∧
    (∀ (i : fin 1) (t : nat), (t < 2)%nat →
       entry dfs i t
       = exp (- left_riemann
                  (entry [ [# 0.03%R]; [# 0.02%R]; [# 0.01%R] ] i)
                  (λ j, [0%R; 1%R; 2%R] !!! j) t)) ∧
    np_getcol dfs (-1) = Ok final ∧
    (∀ i : fin 1,
       final !!! i
       = exp (- left_riemann
                  (entry [ [# 0.03%R]; [# 0.02%R]; [# 0.01%R] ] i)
                  (λ j, [0%R; 1%R; 2%R] !!! j) (2 - 1))).
Proof.
  refine (discount_factors_left_riemann
            [ [# 0.03%R]; [# 0.02%R]; [# 0.01%R] ] [0%R; 1%R; 2%R] 2 _ _ _);
    [reflexivity | reflexivity | lia].
Defined.

Lemma run_missing_field_witness :
  ∃ absent,
    absent ∈ required_fields ∧
    ({["Initial Interest Rate" := 0.03%R; "Maturity Time" := 12%R]}
       : gmap string R) !! absent = None ∧
    run {["Initial Interest Rate" := 0.03%R; "Maturity Time" := 12%R]}
        (Some {["NumberOfSimulations" := 1024]}) zero_sampler
    = Raise (KeyError absent).
Proof.
  apply (run_missing_field
           {["Initial Interest Rate" := 0.03%R; "Maturity Time" := 12%R]}
           (Some {["NumberOfSimulations" := 1024]}) zero_sampler
           "Volatility").
  - in_fields.
  - reflexivity.
Defined.

Lemma run_maturity_in_years_witness :
  ∃ closed_form paths grid dfs finals,
    vasicek_bond_price (12%R / of_int 12)%f 0.03%R 0.01%R KAPPA THETA
      = Ok closed_form ∧
    simulate_short_rate_quasi_mc (12%R / of_int 12)%f 0.03%R 0.01%R
      (Z.to_nat 1024) (lit 0.01) zero_sampler = Ok (paths, grid) ∧
    last grid = Some (12%R / of_int 12)%f ∧
    compute_discount_factors paths grid = Ok dfs ∧
    np_getcol dfs (-1) = Ok finals ∧
    run example_scenario (Some {["NumberOfSimulations" := 1024]}) zero_sampler
    = Ok {| bond_price :=
              py_round_ndigits
                (np_mean finals - (np_mean finals - closed_form))%f 10;
            variance := py_round_ndigits (np_var finals) 10 |}.
Proof.
  destruct (vasicek_bond_price_R (12 / 12)%R 0.03%R 0.01%R)
    as [closed_form Hcf].
  exists closed_form.
  destruct (proj2 (run_maturity_in_years example_scenario
                     {["NumberOfSimulations" := 1024]} zero_sampler
                     0.03%R 0.01%R 12%R eq_refl eq_refl eq_refl)
                  100 1024 (λ _ _, 0%R) closed_form)
    as (paths & grid & dfs & finals & Hrun).
  { apply example_scenario_steps. }
  { lia. }
  { reflexivity. }
  { reflexivity. }
  { exact Hcf. }
  exists paths, grid, dfs, finals. split; [exact Hcf|exact Hrun].
Defined.

Lemma run_without_solver_params_witness :
  run example_scenario None zero_sampler = Raise AttributeError ∧
  ∀ params : gmap string Z,
    params !! "NumberOfSimulations" = None →
    run example_scenario (Some params) zero_sampler
    = run example_scenario (Some (<["NumberOfSimulations" := 10000]> params))
        zero_sampler.
Proof.
  apply (run_without_solver_params example_scenario zero_sampler
           0.03%R 0.01%R 12%R); reflexivity.
Defined.


(** The failure of the normalizer at 0 reaches the caller of [run]. *)
Example run_zero_simulations (sampler : normal_sampler R) :
  run example_scenario (Some {["NumberOfSimulations" := 0]}) sampler
  = Raise OverflowError.
Proof.
  rewrite (run_fields example_scenario _ sampler 0.03%R 0.01%R 12%R)
    by reflexivity.
  reflexivity.
Qed.


(** The failure of the normalizer at [2 ^ 64] reaches the caller of [run]
    too. *)
Example run_huge_request (sampler : normal_sampler R) :
  run example_scenario (Some {["NumberOfSimulations" := 2 ^ 64]}) sampler
  = Raise TypeError.
Proof.
  rewrite (run_fields example_scenario _ sampler 0.03%R 0.01%R 12%R)
    by reflexivity.
  reflexivity.
Qed.

(** ** Further properties of the normalizer *)

Lemma next_power_of_2_Ok_inv (n p : Z) :
  next_power_of_2 n = Ok p →
  1 ≤ n < 2 ^ 64 ∧ p = Z.min (2 ^ Z.log2_up n) MAX_SIMULATIONS.
Proof.
  unfold next_power_of_2.
  destruct (np_ceil_log2_cases n) as [[_ ->]|[[_ ->]|[[_ ->]|[Hn ->]]]];
    [done..|].
  intros [= <-]. done.
Qed.

Lemma next_power_of_2_raises (n : Z) :
  (n = 0 → next_power_of_2 n = Raise OverflowError) ∧
  (- 2 ^ 63 ≤ n < 0 → next_power_of_2 n = Raise ValueError) ∧
  (n < - 2 ^ 63 ∨ 2 ^ 64 ≤ n → next_power_of_2 n = Raise TypeError).
Proof.
  unfold next_power_of_2.
  destruct (np_ceil_log2_cases n) as [[? ->]|[[? ->]|[[? ->]|[? ->]]]];
    repeat split; intros; first [reflexivity | lia].
Qed.

(** X1: [next_power_of_2] returns a count exactly for the requests from 1
    to [2 ^ 64 - 1].  A request of 0 raises [OverflowError], a negative one
    down to [- 2 ^ 63] raises [ValueError], and one below [- 2 ^ 63] or from
    [2 ^ 64] on raises [TypeError]. *)
Theorem next_power_of_2_domain (n : Z) :
  (1 ≤ n < 2 ^ 64 ↔ ∃ p, next_power_of_2 n = Ok p) ∧
  (n = 0 → next_power_of_2 n = Raise OverflowError) ∧
  (- 2 ^ 63 ≤ n < 0 → next_power_of_2 n = Raise ValueError) ∧
  (n < - 2 ^ 63 ∨ 2 ^ 64 ≤ n → next_power_of_2 n = Raise TypeError).
Proof.
  split; [split|apply next_power_of_2_raises].
  - intros Hn. rewrite next_power_of_2_pos by done. by eexists.
  - intros [p Hp]. by apply next_power_of_2_Ok_inv in Hp as [? _].
Qed.

Lemma next_power_of_2_domain_witness :
  (1 ≤ 3 < 2 ^ 64 ↔ ∃ p, next_power_of_2 3 = Ok p) ∧
  next_power_of_2 0 = Raise OverflowError ∧
  next_power_of_2 (-5) = Raise ValueError ∧
  next_power_of_2 (- 2 ^ 63 - 1) = Raise TypeError ∧
  next_power_of_2 (2 ^ 64) = Raise TypeError.
Proof.
  split; [apply (next_power_of_2_domain 3)|]. split; [|split; [|split]].
  - apply (next_power_of_2_domain 0). reflexivity.
  - apply (next_power_of_2_domain (-5)). lia.
  - apply (next_power_of_2_domain (- 2 ^ 63 - 1)). lia.
  - apply (next_power_of_2_domain (2 ^ 64)). lia.
Defined.

(** X2: every count that [next_power_of_2] returns is a power of two between
    1 and [MAX_SIMULATIONS], whatever the request. *)
Theorem next_power_of_2_range (n p : Z) :
  next_power_of_2 n = Ok p →
  1 ≤ p ≤ MAX_SIMULATIONS ∧ power_of_2 p.
Proof.
  intros Hp. apply next_power_of_2_Ok_inv in Hp as [Hn ->].
  pose proof (Z.log2_up_nonneg n) as Hk.
  assert (0 < 2 ^ Z.log2_up n) as Hpow by (apply Z.pow_pos_nonneg; lia).
  split; [unfold MAX_SIMULATIONS; lia|].
  destruct (Z.le_ge_cases (2 ^ Z.log2_up n) MAX_SIMULATIONS) as [Hle|Hge].
  - rewrite Z.min_l by done. by exists (Z.log2_up n).
  - rewrite Z.min_r by done. exists 16. split; [lia|reflexivity].
Qed.

Lemma next_power_of_2_range_witness :
  1 ≤ 16384 ≤ MAX_SIMULATIONS ∧ power_of_2 16384.
Proof. apply (next_power_of_2_range 10000 16384). reflexivity. Defined.

(** X3: [next_power_of_2] leaves its own results unchanged. *)
Theorem next_power_of_2_idempotent (n p : Z) :
  next_power_of_2 n = Ok p → next_power_of_2 p = Ok p.
Proof.
  intros Hp. apply next_power_of_2_Ok_inv in Hp as [Hn ->].
  pose proof (Z.log2_up_nonneg n) as Hk.
  assert (0 < 2 ^ Z.log2_up n) as Hpow by (apply Z.pow_pos_nonneg; lia).
  destruct (Z.le_ge_cases (2 ^ Z.log2_up n) MAX_SIMULATIONS) as [Hle|Hge].
  - rewrite Z.min_l by done.
    rewrite next_power_of_2_pos by (unfold MAX_SIMULATIONS in Hle; lia).
    rewrite Z.log2_up_pow2 by done. by rewrite Z.min_l.
  - rewrite Z.min_r by done. reflexivity.
Qed.

Lemma next_power_of_2_idempotent_witness : next_power_of_2 16384 = Ok 16384.
Proof. apply (next_power_of_2_idempotent 10000 16384). reflexivity. Defined.

(** X4: a larger request never gets a smaller count. *)
Theorem next_power_of_2_monotone (n m p q : Z) :
  n ≤ m → next_power_of_2 n = Ok p → next_power_of_2 m = Ok q → p ≤ q.
Proof.
  intros Hnm Hp Hq.
  apply next_power_of_2_Ok_inv in Hp as [Hn ->].
  apply next_power_of_2_Ok_inv in Hq as [Hm ->].
  apply Z.min_le_compat_r. apply Z.pow_le_mono_r; [lia|].
  by apply Z.log2_up_le_mono.
Qed.

Lemma next_power_of_2_monotone_witness : 1024 ≤ 16384.
Proof.
  apply (next_power_of_2_monotone 1000 10000 1024 16384);
    [lia | reflexivity | reflexivity].
Defined.

(** X5: up to the ceiling the count is less than twice the request, and
    below the ceiling a request is never cut: the count is at least the
    request. *)
Theorem next_power_of_2_overshoot (n p : Z) :
  n ≤ MAX_SIMULATIONS → next_power_of_2 n = Ok p → n ≤ p < 2 * n.
Proof.
  intros Hcap Hp. apply next_power_of_2_Ok_inv in Hp as [Hn ->].
  assert (2 ^ Z.log2_up n ≤ MAX_SIMULATIONS) as Hle.
  { change MAX_SIMULATIONS with (2 ^ 16).
    apply Z.pow_le_mono_r; [lia|]. apply Z.log2_up_le_pow2; [lia|done]. }
  rewrite Z.min_l by done.
  destruct (decide (n = 1)) as [->|Hne]; [by compute|].
  pose proof (Z.log2_up_spec n ltac:(lia)) as [Hlo Hhi].
  split; [done|].
  replace (2 ^ Z.log2_up n) with (2 * 2 ^ Z.pred (Z.log2_up n)); [lia|].
  rewrite <- Z.pow_succ_r.
  - f_equal. lia.
  - pose proof (Z.log2_up_pos n ltac:(lia)). lia.
Qed.

Lemma next_power_of_2_overshoot_witness : 10000 ≤ 16384 < 2 * 10000.
Proof.
  apply (next_power_of_2_overshoot 10000 16384); [by compute | reflexivity].
Defined.

(** ** Further properties of the simulator and the estimator *)

Section pipeline_failures.
Context {F : Type} `{Float64 F}.

Lemma np_linspace_Ok (start stop : F) (num : Z) :
  0 ≤ num → ∃ g, np_linspace start stop num = Ok g.
Proof.
  intros Hnum. unfold np_linspace.
  destruct (Z.ltb_spec num 0) as [?|_]; [lia|]. by eexists.
Qed.

(** X6: the ensemble and the time grid that the simulator returns have
    [num_steps + 1] columns and points, so the discounting engine accepts
    them without a broadcasting error and returns [num_steps] columns. *)
Theorem simulate_then_discount (total_time initial_rate volatility : F)
    (n : nat) (time_step : F) (sampler : normal_sampler F)
    (shocks : nat → nat → F) (k : Z) :
  num_steps_of total_time time_step = Ok k → 0 ≤ k →
  sampler k n = Ok shocks →
  ∃ paths grid dfs,
    simulate_short_rate_quasi_mc total_time initial_rate volatility n
      time_step sampler = Ok (paths, grid) ∧
    length paths = S (Z.to_nat k) ∧
    length grid = S (Z.to_nat k) ∧
    compute_discount_factors paths grid = Ok dfs ∧
    length dfs = Z.to_nat k.
Proof.
  intros Hk Hpos Hsampler.
  destruct (simulate_ok total_time initial_rate volatility n time_step
              sampler shocks k Hk Hpos Hsampler)
    as (paths & grid & Hsim & _ & Hlen_paths & Hlen_grid & _).
  destruct (discount_factors_ok paths grid ltac:(congruence))
    as (dfs & Hdfs & Hlen_dfs & _).
  exists paths, grid, dfs. repeat split; try done. lia.
Qed.

(** X7: a time step of zero stops the simulator and the estimator with
    [ZeroDivisionError], before the sampler is called. *)
Theorem zero_time_step (total_time initial_rate volatility : F) (n : nat)
    (time_step : F) (sampler : normal_sampler F) :
  is_zero time_step = true →
  simulate_short_rate_quasi_mc total_time initial_rate volatility n
    time_step sampler = Raise ZeroDivisionError ∧
  monte_carlo_bond_price total_time initial_rate volatility n time_step
    sampler = Raise ZeroDivisionError.
Proof.
  intros Hzero.
  assert (simulate_short_rate_quasi_mc total_time initial_rate volatility n
            time_step sampler = Raise ZeroDivisionError) as Hsim.
  { unfold simulate_short_rate_quasi_mc, num_steps_of, py_truediv.
    by rewrite Hzero. }
  split; [done|]. unfold monte_carlo_bond_price. by rewrite Hsim.
Qed.

(** X8: when the number of steps comes out below -1, as for a negative
    maturity, [np.linspace] rejects the number of grid points and the
    simulator and the estimator raise [ValueError], before the sampler is
    called. *)
Theorem negative_horizon (total_time initial_rate volatility : F) (n : nat)
    (time_step : F) (sampler : normal_sampler F) (k : Z) :
  num_steps_of total_time time_step = Ok k → k < -1 →
  simulate_short_rate_quasi_mc total_time initial_rate volatility n
    time_step sampler = Raise ValueError ∧
  monte_carlo_bond_price total_time initial_rate volatility n time_step
    sampler = Raise ValueError.
Proof.
  intros Hk Hneg.
  assert (simulate_short_rate_quasi_mc total_time initial_rate volatility n
            time_step sampler = Raise ValueError) as Hsim.
  { unfold simulate_short_rate_quasi_mc. rewrite Hk.
    cbn [mbind result_bind]. unfold np_linspace.
    destruct (Z.ltb_spec (k + 1) 0) as [_|?]; [done|lia]. }
  split; [done|]. unfold monte_carlo_bond_price. by rewrite Hsim.
Qed.

Lemma simulate_sampler_failure (total_time initial_rate volatility : F)
    (n : nat) (time_step : F) (sampler : normal_sampler F) (k : Z)
    (e : exn) :
  num_steps_of total_time time_step = Ok k → -1 ≤ k →
  sampler k n = Raise e →
  simulate_short_rate_quasi_mc total_time initial_rate volatility n
    time_step sampler = Raise e.
Proof.
  intros Hk Hpos Hsampler.
  unfold simulate_short_rate_quasi_mc. rewrite Hk. cbn [mbind result_bind].
  destruct (np_linspace_Ok (of_int 0) total_time (k + 1)) as [g ->]; [lia|].
  cbn [mbind result_bind]. unfold generate_normal_samples.
  by rewrite Hsampler.
Qed.

(** X9: an exception of the sampler comes out of the simulator, of the
    estimator and of [run] as it is. *)
Theorem sampler_failure (input_data : gmap string F) (params : gmap string Z)
    (sampler : normal_sampler F) (initial_rate volatility months : F)
    (k p : Z) (e : exn) :
  input_data !! "Initial Interest Rate" = Some initial_rate →
  input_data !! "Volatility" = Some volatility →
  input_data !! "Maturity Time" = Some months →
  next_power_of_2 (default 10000 (params !! "NumberOfSimulations")) = Ok p →
  num_steps_of (months / of_int 12)%f (lit 0.01) = Ok k → -1 ≤ k →
  sampler k (Z.to_nat p) = Raise e →
  simulate_short_rate_quasi_mc (months / of_int 12)%f initial_rate volatility
    (Z.to_nat p) (lit 0.01) sampler = Raise e ∧
  monte_carlo_bond_price (months / of_int 12)%f initial_rate volatility
    (Z.to_nat p) (lit 0.01) sampler = Raise e ∧
  run input_data (Some params) sampler = Raise e.
Proof.
  intros Hrate Hvol Hmonths Hp Hk Hpos Hsampler.
  pose proof (simulate_sampler_failure (months / of_int 12)%f initial_rate
                volatility (Z.to_nat p) (lit 0.01) sampler k e Hk Hpos
                Hsampler) as Hsim.
  assert (monte_carlo_bond_price (months / of_int 12)%f initial_rate
            volatility (Z.to_nat p) (lit 0.01) sampler = Raise e) as Hmc.
  { unfold monte_carlo_bond_price. by rewrite Hsim. }
  split; [done|]. split; [done|].
  rewrite (run_fields _ _ _ _ _ _ Hrate Hvol Hmonths).
  cbn [from_option mbind result_bind]. rewrite Hp.
  cbn [mbind result_bind]. by rewrite Hmc.
Qed.

(** X10: when the maturity is so short that the number of steps rounds to
    zero, the array of discount factors has no column and the estimator
    raises [IndexError] instead of returning a price. *)
Theorem no_time_step (total_time initial_rate volatility : F) (n : nat)
    (time_step : F) (sampler : normal_sampler F) (shocks : nat → nat → F) :
  num_steps_of total_time time_step = Ok 0 →
  sampler 0 n = Ok shocks →
  (∃ paths grid,
     simulate_short_rate_quasi_mc total_time initial_rate volatility n
       time_step sampler = Ok (paths, grid) ∧
     length paths = 1%nat ∧
     compute_discount_factors paths grid = Ok []) ∧
  monte_carlo_bond_price total_time initial_rate volatility n time_step
    sampler = Raise IndexError.
Proof.
  intros Hk Hsampler.
  destruct (simulate_ok total_time initial_rate volatility n time_step
              sampler shocks 0 Hk ltac:(lia) Hsampler)
    as (paths & grid & Hsim & _ & Hlen_paths & Hlen_grid & _).
  destruct (discount_factors_ok paths grid ltac:(congruence))
    as (dfs & Hdfs & Hlen_dfs & _).
  rewrite Hlen_paths in Hlen_dfs. destruct dfs; [|done].
  split; [by exists paths, grid|].
  eapply monte_carlo_no_steps; done.
Qed.

(** X11: when the ensemble and the time grid do not fit, the number of
    columns before the last and the number of grid segments being different
    and neither being 1, the discounting engine raises [ValueError]. *)
Theorem discount_shape_mismatch {n} (rate_paths : list (vec F n))
    (time_grid : list F) :
  (length rate_paths - 1 ≠ length time_grid - 1)%nat →
  (length rate_paths - 1 ≠ 1)%nat → (length time_grid - 1 ≠ 1)%nat →
  compute_discount_factors rate_paths time_grid = Raise ValueError.
Proof.
  intros Hne Hpaths Hgrid. unfold compute_discount_factors, rate_integral, np_mul_broadcast.
  assert (length (np_init rate_paths) = (length rate_paths - 1)%nat)
    as Hinit by (unfold np_init; rewrite length_take; lia).
  pose proof (length_np_diff time_grid) as Hdiff.
  rewrite decide_False by lia.
  destruct (np_init rate_paths) as [|c [|c' a]],
           (np_diff time_grid) as [|d [|d' dt]];
    simpl in *; try done; lia.
Qed.
End pipeline_failures.

(** ** Further properties in exact arithmetic *)

Lemma np_linspace_R (stop : R) (k : Z) (grid : list R) :
  1 ≤ k → np_linspace (of_int 0) stop (k + 1) = Ok grid →
  ∀ j : nat, (j ≤ Z.to_nat k)%nat →
    grid !! j = Some (INR j * (stop / IZR k))%R.
Proof.
  intros Hk Hgrid j Hj. unfold np_linspace in Hgrid.
  destruct (Z.ltb_spec (k + 1) 0) as [?|_]; [lia|].
  destruct (Z.ltb_spec 0 (k + 1 - 1)) as [_|?]; [|lia].
  destruct (Z.ltb_spec 1 (k + 1)) as [_|?]; [|lia].
  injection Hgrid as <-.
  assert (IZR k ≠ 0%R) as Hk0 by (apply not_0_IZR; lia).
  replace (k + 1 - 1) with k by lia.
  destruct (decide (j = Z.to_nat k)) as [->|Hne].
  - rewrite list_lookup_insert_eq.
    2:{ repeat match goal with
               | |- context [if ?b then _ else _] => destruct b
               end; rewrite !length_map, length_seq; lia. }
    f_equal. rewrite INR_IZR_INZ, Z2Nat.id by lia. by field.
  - rewrite list_lookup_insert_ne by lia.
    assert (seq 0 (Z.to_nat (k + 1)) !! j = Some j) as Hseq
      by (apply lookup_seq_lt; lia).
    simpl. destruct (bool_decide ((stop - 0) / IZR k = 0)%R) eqn:Hstep.
    + apply bool_decide_eq_true_1 in Hstep.
      rewrite !list_lookup_fmap, Hseq. simpl. f_equal.
      rewrite <- INR_IZR_INZ.
      assert (stop = 0%R) as ->.
      { apply Rmult_eq_compat_r with (r := IZR k) in Hstep.
        field_simplify in Hstep; [lra|done]. }
      by field.
    + rewrite !list_lookup_fmap, Hseq. simpl. f_equal.
      rewrite <- INR_IZR_INZ. by field.
Qed.

(** X12: the time grid of the simulator is uniform: its point [j] is
    [j * T / num_steps], from 0 to the horizon [T], so the grid spacing used
    by the discounting engine is [T / num_steps] whatever the time step. *)
Theorem time_grid_uniform (total_time initial_rate volatility : R) (n : nat)
    (time_step : R) (sampler : normal_sampler R) (shocks : nat → nat → R)
    (k : Z) :
  num_steps_of total_time time_step = Ok k → 1 ≤ k →
  sampler k n = Ok shocks →
  ∃ paths grid,
    simulate_short_rate_quasi_mc total_time initial_rate volatility n
      time_step sampler = Ok (paths, grid) ∧
    (∀ j : nat, (j ≤ Z.to_nat k)%nat →
       grid !! j = Some (INR j * (total_time / IZR k))%R) ∧
    grid !! 0%nat = Some 0%R ∧
    last grid = Some total_time ∧
    np_diff grid = replicate (Z.to_nat k) (total_time / IZR k)%R.
Proof.
  intros Hk Hpos Hsampler.
  destruct (simulate_ok total_time initial_rate volatility n time_step
              sampler shocks k Hk ltac:(lia) Hsampler)
    as (paths & grid & Hsim & Hgrid & _ & Hlen & _).
  pose proof (np_linspace_R total_time k grid Hpos Hgrid) as Hpoints.
  exists paths, grid. split; [done|]. split; [done|]. split; [|split].
  - rewrite Hpoints by lia. f_equal. simpl. lra.
  - eapply np_linspace_last; [done|lia].
  - apply list_eq. intros j.
    destruct (decide (j < Z.to_nat k)%nat) as [Hj|Hj].
    + rewrite np_diff_lookup by lia.
      rewrite lookup_replicate_2 by done. f_equal.
      rewrite (list_lookup_total_correct grid (S j) _
                 (Hpoints (S j) ltac:(lia))),
              (list_lookup_total_correct grid j _ (Hpoints j ltac:(lia))).
      rewrite S_INR. simpl. lra.
    + rewrite lookup_ge_None_2 by (rewrite length_np_diff; lia).
      symmetry. apply lookup_ge_None_2. rewrite length_replicate. lia.
Qed.

Lemma vasicek_step_affine (volatility time_step r z : R) :
  vasicek_step volatility time_step r z
  = (0.03 + (1 - 0.1 * time_step) * (r - 0.03)
     + volatility * sqrt time_step * z)%R.
Proof. rewrite vasicek_step_R. lra. Qed.

Lemma simulate_solution (total_time initial_rate volatility : R) (n : nat)
    (time_step : R) (sampler : normal_sampler R) (shocks : nat → nat → R)
    (k : Z) :
  num_steps_of total_time time_step = Ok k → 0 ≤ k →
  sampler k n = Ok shocks →
  ∃ paths grid,
    simulate_short_rate_quasi_mc total_time initial_rate volatility n
      time_step sampler = Ok (paths, grid) ∧
    length paths = S (Z.to_nat k) ∧
    ∀ (i : fin n) (t : nat), (t ≤ Z.to_nat k)%nat →
      entry paths i t
      = (0.03 + (1 - 0.1 * time_step) ^ t * (initial_rate - 0.03)
         + volatility * sqrt time_step
           * shock_sum (1 - 0.1 * time_step) (shocks i) t)%R.
Proof.
  intros Hk Hpos Hsampler.
  destruct (simulate_ok total_time initial_rate volatility n time_step
              sampler shocks k Hk Hpos Hsampler)
    as (paths & grid & Hsim & _ & Hlen & _ & Hzero & Hrec).
  exists paths, grid. split; [done|]. split; [done|].
  intros i t. induction t as [|t IH]; intros Ht.
  - unfold entry. rewrite (list_lookup_total_correct _ _ _ Hzero).
    rewrite vlookup_replicate. simpl. lra.
  - destruct (Hrec (S t) ltac:(lia)) as (prev & c & Hprev & Hc & Hval).
    replace (S t - 1)%nat with t in * by lia.
    unfold entry in *. rewrite (list_lookup_total_correct _ _ _ Hc), Hval.
    rewrite (list_lookup_total_correct _ _ _ Hprev) in IH.
    rewrite IH by lia. rewrite vasicek_step_affine. simpl. lra.
Qed.

(** X13: for a float initial rate and in exact arithmetic, the rate of a
    path after [t] steps is the long-run mean 0.03, plus the initial gap to
    it shrunk by the factor [1 - 0.1 * dt] at each step, plus the volatility
    times [sqrt dt] times the weighted sum of the shocks so far. *)
Theorem simulate_closed_form (total_time initial_rate volatility : R)
    (n : nat) (time_step : R) (sampler : normal_sampler R)
    (shocks : nat → nat → R) (k : Z) :
  num_steps_of total_time time_step = Ok k → 0 ≤ k →
  sampler k n = Ok shocks →
  ∃ paths grid,
    simulate_short_rate_quasi_mc total_time initial_rate volatility n
      time_step sampler = Ok (paths, grid) ∧
    ∀ (i : fin n) (t : nat), (t ≤ Z.to_nat k)%nat →
      entry paths i t
      = (0.03 + (1 - 0.1 * time_step) ^ t * (initial_rate - 0.03)
         + volatility * sqrt time_step
           * shock_sum (1 - 0.1 * time_step) (shocks i) t)%R.
Proof.
  intros Hk Hpos Hsampler.
  destruct (simulate_solution total_time initial_rate volatility n time_step
              sampler shocks k Hk Hpos Hsampler)
    as (paths & grid & Hsim & _ & Hsol).
  by exists paths, grid.
Qed.

Lemma left_riemann_ext {F : Type} `{Float64 F} (rate rate' grid : nat → F)
    (t : nat) :
  (∀ j, (j ≤ t)%nat → rate j = rate' j) →
  left_riemann rate grid t = left_riemann rate' grid t.
Proof.
  induction t as [|t IH]; intros Hext; simpl.
  - by rewrite (Hext 0%nat).
  - rewrite IH by (intros j Hj; apply Hext; lia).
    by rewrite (Hext (S t)).
Qed.

Lemma Rsum_constant (l : list R) (c : R) :
  Forall (λ x, x = c) l → Rsum l = (INR (length l) * c)%R.
Proof.
  induction 1 as [|x l -> _ IH]; unfold Rsum in *.
  - simpl. lra.
  - cbn [foldr length]. rewrite IH, S_INR. lra.
Qed.

Lemma mean_squared_deviation_constant (l : list R) (c : R) :
  (1 ≤ length l)%nat → Forall (λ x, x = c) l →
  mean_squared_deviation l = 0%R.
Proof.
  intros Hlen Hall.
  assert (INR (length l) ≠ 0%R) as Hn by (apply not_0_INR; lia).
  assert (Rmean l = c) as Hmean.
  { unfold Rmean. rewrite (Rsum_constant l c Hall). by field. }
  unfold mean_squared_deviation. rewrite Hmean. unfold Rmean at 1.
  rewrite (Rsum_constant _ 0%R).
  - rewrite length_map. by field.
  - apply Forall_fmap. eapply Forall_impl; [exact Hall|].
    intros x ->. simpl. lra.
Qed.

Lemma R_round_ndigits_0 (ndigits : Z) : R_round_ndigits 0 ndigits = 0%R.
Proof.
  unfold R_round_ndigits. rewrite Rmult_0_l, (R_round_IZR 0).
  unfold Rdiv. apply Rmult_0_l.
Qed.

Lemma monte_carlo_R_finals (total_time initial_rate volatility : R)
    (n : nat) (time_step : R) (sampler : normal_sampler R)
    (shocks : nat → nat → R) (k : Z) :
  num_steps_of total_time time_step = Ok k → 1 ≤ k →
  sampler k n = Ok shocks →
  ∃ closed_form paths grid finals,
    simulate_short_rate_quasi_mc total_time initial_rate volatility n
      time_step sampler = Ok (paths, grid) ∧
    (∀ i : fin n,
       finals !!! i
       = exp (- left_riemann (entry paths i) (λ j, grid !!! j)
                  (Z.to_nat k - 1))) ∧
    monte_carlo_bond_price total_time initial_rate volatility n time_step
      sampler
    = Ok (R_round_ndigits closed_form 10,
          R_round_ndigits (mean_squared_deviation (vec_to_list finals)) 10).
Proof.
  intros Hk Hpos Hsampler.
  destruct (vasicek_bond_price_R total_time initial_rate volatility)
    as [closed_form Hcf].
  destruct (monte_carlo_ok total_time initial_rate volatility n time_step
              sampler shocks k closed_form Hk Hpos Hsampler Hcf)
    as (paths & grid & dfs & finals & Hsim & _ & _ & Hfinals & Hmc).
  exists closed_form, paths, grid, finals.
  split; [done|]. split; [exact Hfinals|].
  rewrite Hmc, np_var_R. set (mc_estimate := np_mean finals).
  replace (mc_estimate - (mc_estimate - closed_form))%f with closed_form
    by (simpl; lra).
  reflexivity.
Qed.

(** X14: with a single path, or with a volatility of zero, which makes all
    paths equal, the variance that the estimator returns is 0. *)
Theorem variance_zero (total_time initial_rate volatility : R) (n : nat)
    (time_step : R) (sampler : normal_sampler R) (shocks : nat → nat → R)
    (k : Z) :
  (1 ≤ n)%nat → num_steps_of total_time time_step = Ok k → 1 ≤ k →
  sampler k n = Ok shocks →
  n = 1%nat ∨ volatility = 0%R →
  ∃ price,
    monte_carlo_bond_price total_time initial_rate volatility n time_step
      sampler = Ok (price, 0%R).
Proof.
  intros Hn Hk Hpos Hsampler Hcase.
  destruct (monte_carlo_R_finals total_time initial_rate volatility n
              time_step sampler shocks k Hk Hpos Hsampler)
    as (cf & paths & grid & finals & Hsim & Hfinals & Hmc).
  exists (R_round_ndigits cf 10). rewrite Hmc. do 2 f_equal.
  replace (mean_squared_deviation (vec_to_list finals)) with 0%R;
    [apply R_round_ndigits_0|].
  symmetry. destruct Hcase as [->| ->].
  - pose proof (length_vec_to_list finals) as Hlen.
    destruct (vec_to_list finals) as [|x [|y l]] eqn:Hl; try done.
    apply (mean_squared_deviation_constant [x] x); [simpl; lia|].
    by repeat constructor.
  - destruct (simulate_solution total_time initial_rate 0%R n time_step
                sampler shocks k Hk ltac:(lia) Hsampler)
      as (paths' & grid' & Hsim' & _ & Hsol).
    rewrite Hsim in Hsim'. injection Hsim' as <- <-.
    set (rate := λ t : nat,
           (0.03 + (1 - 0.1 * time_step) ^ t * (initial_rate - 0.03))%R).
    apply (mean_squared_deviation_constant _
             (exp (- left_riemann rate (λ j, grid !!! j) (Z.to_nat k - 1)))).
    { rewrite length_vec_to_list. lia. }
    apply Forall_vlookup. intros i. rewrite Hfinals. do 2 f_equal.
    apply left_riemann_ext. intros j Hj. rewrite Hsol by lia.
    unfold rate. lra.
Qed.

Lemma exp_le_mono (x y : R) : (x <= y)%R → (exp x <= exp y)%R.
Proof.
  intros [Hlt| ->]; [left; by apply exp_increasing|apply Rle_refl].
Qed.

Lemma left_riemann_nonneg (rate grid : nat → R) (t : nat) :
  (∀ j, (j ≤ t)%nat → 0 <= rate j)%R →
  (∀ j, (j ≤ t)%nat → grid j <= grid (S j))%R →
  (0 <= left_riemann rate grid t)%R.
Proof.
  induction t as [|t IH]; intros Hrate Hgrid; simpl.
  - pose proof (Hrate 0%nat ltac:(lia)). pose proof (Hgrid 0%nat ltac:(lia)).
    nra.
  - pose proof (Hrate (S t) ltac:(lia)).
    pose proof (Hgrid (S t) ltac:(lia)).
    assert (0 <= left_riemann rate grid t)%R
      by (apply IH; intros j Hj; [apply Hrate|apply Hgrid]; lia).
    simpl in *. nra.
Qed.

Lemma discount_factors_R {n} (rate_paths : list (vec R n))
    (time_grid : list R) (k : nat) :
  length rate_paths = S k → length time_grid = S k →
  ∃ dfs,
    compute_discount_factors rate_paths time_grid = Ok dfs ∧
    length dfs = k ∧
    ∀ (i : fin n) (t : nat), (t < k)%nat →
      entry dfs i t
      = exp (- left_riemann (entry rate_paths i) (λ j, time_grid !!! j) t).
Proof.
  intros Hpaths Hgrid.
  destruct (discount_factors_ok rate_paths time_grid ltac:(congruence))
    as (dfs & Hdfs & Hlen & Hval).
  exists dfs. split; [done|]. split; [lia|].
  intros i t Ht. destruct (Hval t ltac:(lia)) as (c & Hc & Hcv).
  unfold entry at 1. rewrite (list_lookup_total_correct _ _ _ Hc).
  apply Hcv.
Qed.

(** X15: every discount factor is positive; when the rates of the columns
    used are not negative and the time grid does not decrease, the discount
    factors are at most 1 and do not increase along a path. *)
Theorem discount_factors_bounds {n} (rate_paths : list (vec R n))
    (time_grid : list R) (k : nat) :
  length rate_paths = S k → length time_grid = S k →
  ∃ dfs,
    compute_discount_factors rate_paths time_grid = Ok dfs ∧
    (∀ (i : fin n) (t : nat), (t < k)%nat → (0 < entry dfs i t)%R) ∧
    ((∀ (i : fin n) (t : nat), (t < k)%nat →
        (0 <= entry rate_paths i t)%R) →
     (∀ t : nat, (t < k)%nat → (time_grid !!! t <= time_grid !!! S t)%R) →
     ∀ (i : fin n) (t : nat), (t < k)%nat →
       (entry dfs i t <= 1)%R ∧
       ((S t < k)%nat → (entry dfs i (S t) <= entry dfs i t)%R)).
Proof.
  intros Hpaths Hgrid.
  destruct (discount_factors_R rate_paths time_grid k Hpaths Hgrid)
    as (dfs & Hdfs & Hlen & Hval).
  exists dfs. split; [done|]. split.
  - intros i t Ht. rewrite Hval by done. apply exp_pos.
  - intros Hrate Hmono i t Ht. split.
    + rewrite Hval by done. rewrite <- exp_0. apply exp_le_mono.
      assert (0 <= left_riemann (entry rate_paths i)
                     (λ j, time_grid !!! j) t)%R.
      { apply left_riemann_nonneg; intros j Hj;
          [apply Hrate|apply Hmono]; lia. }
      lra.
    + intros Hst. rewrite !Hval by lia. apply exp_le_mono. simpl.
      pose proof (Hrate i (S t) Hst). pose proof (Hmono (S t) Hst).
      simpl in *. nra.
Qed.

(** X16: along a path each discount factor is the previous one times the
    exponential of minus the next rate times the next grid segment. *)
Theorem discount_factors_compound {n} (rate_paths : list (vec R n))
    (time_grid : list R) (k : nat) :
  length rate_paths = S k → length time_grid = S k →
  ∃ dfs,
    compute_discount_factors rate_paths time_grid = Ok dfs ∧
    (∀ i : fin n, (0 < k)%nat →
       entry dfs i 0
       = exp (- (entry rate_paths i 0
                 * (time_grid !!! 1%nat - time_grid !!! 0%nat)))) ∧
    (∀ (i : fin n) (t : nat), (S t < k)%nat →
       entry dfs i (S t)
       = (entry dfs i t
          * exp (- (entry rate_paths i (S t)
                    * (time_grid !!! S (S t) - time_grid !!! S t))))%R).
Proof.
  intros Hpaths Hgrid.
  destruct (discount_factors_R rate_paths time_grid k Hpaths Hgrid)
    as (dfs & Hdfs & Hlen & Hval).
  exists dfs. split; [done|]. split.
  - intros i Hk. by rewrite Hval.
  - intros i t Ht. rewrite !Hval by lia. rewrite <- exp_plus. f_equal.
    simpl. lra.
Qed.

(** ** Further properties of the closed-form price *)

Lemma vasicek_bond_price_value (T r0 sigma kappa theta : R) :
  kappa ≠ 0%R →
  vasicek_bond_price T r0 sigma kappa theta
  = Ok (exp ((theta - sigma ^ 2 / (2 * kappa ^ 2))
             * ((1 - exp (- kappa * T)) / kappa - T)
             - sigma ^ 2 * ((1 - exp (- kappa * T)) / kappa) ^ 2
               / (4 * kappa))
        * exp (- ((1 - exp (- kappa * T)) / kappa) * r0))%R.
Proof.
  intros Hkappa. unfold vasicek_bond_price, py_truediv. simpl.
  rewrite bool_decide_eq_false_2; [reflexivity|]. nra.
Qed.


(** X18: a bond that matures at once is worth 1. *)
Theorem vasicek_bond_price_at_zero (r0 sigma kappa theta : R) :
  kappa ≠ 0%R → vasicek_bond_price 0%R r0 sigma kappa theta = Ok 1%R.
Proof.
  intros Hkappa. rewrite vasicek_bond_price_value by done. f_equal.
  rewrite Rmult_0_r, exp_0.
  replace ((1 - 1) / kappa)%R with 0%R by (by field).
  replace ((theta - sigma ^ 2 / (2 * kappa ^ 2)) * (0 - 0)
           - sigma ^ 2 * 0 ^ 2 / (4 * kappa))%R with 0%R by (by field).
  replace (- 0 * r0)%R with 0%R by lra.
  rewrite exp_0. lra.
Qed.

Lemma vasicek_B_positive (T kappa : R) :
  kappa ≠ 0%R → (0 < T)%R → (0 < (1 - exp (- kappa * T)) / kappa)%R.
Proof.
  intros Hkappa HT.
  destruct (Rtotal_order kappa 0) as [Hneg|[?|Hpos]]; [|done|].
  - assert (1 < exp (- kappa * T))%R.
    { rewrite <- exp_0. apply exp_increasing. nra. }
    replace ((1 - exp (- kappa * T)) / kappa)%R
      with ((exp (- kappa * T) - 1) / (- kappa))%R by (by field).
    apply Rdiv_lt_0_compat; lra.
  - assert (exp (- kappa * T) < 1)%R.
    { rewrite <- exp_0. apply exp_increasing. nra. }
    apply Rdiv_lt_0_compat; lra.
Qed.

(** X19: for a positive maturity the closed-form price does not go up when
    the initial rate goes up. *)
Theorem vasicek_bond_price_decreasing (T r0 r0' sigma kappa theta : R)
    (price price' : R) :
  kappa ≠ 0%R → (0 < T)%R → (r0 <= r0')%R →
  vasicek_bond_price T r0 sigma kappa theta = Ok price →
  vasicek_bond_price T r0' sigma kappa theta = Ok price' →
  (price' <= price)%R.
Proof.
  intros Hkappa HT Hle.
  rewrite !vasicek_bond_price_value by done. intros [= <-] [= <-].
  apply Rmult_le_compat_l; [left; apply exp_pos|].
  apply exp_le_mono. pose proof (vasicek_B_positive T kappa Hkappa HT). nra.
Qed.

(** X20: without volatility and with the initial rate at the long-run mean,
    the closed-form price is the discount at that constant rate,
    [exp(- theta * T)]. *)
Theorem vasicek_bond_price_flat (T kappa theta : R) :
  kappa ≠ 0%R →
  vasicek_bond_price T theta 0%R kappa theta = Ok (exp (- theta * T)).
Proof.
  intros Hkappa. rewrite vasicek_bond_price_value by done. f_equal.
  rewrite <- exp_plus. f_equal. by field.
Qed.

(** ** Further properties of the entry point and of the wrapper *)

Section entry_point_frame.
Context {F : Type} `{Float64 F}.

(** X21: [run] reads the three required fields of the scenario record and
    nothing else: two records that agree on them give the same result or
    the same exception. *)
Theorem run_reads_required_fields (input_data input_data' : gmap string F)
    (solver_params : option (gmap string Z)) (sampler : normal_sampler F) :
  (∀ key, key ∈ required_fields → input_data' !! key = input_data !! key) →
  run input_data' solver_params sampler = run input_data solver_params sampler.
Proof.
  intros Hagree. unfold run, dict_getitem.
  rewrite (Hagree "Initial Interest Rate") by in_fields.
  rewrite (Hagree "Volatility") by in_fields.
  rewrite (Hagree "Maturity Time") by in_fields.
  reflexivity.
Qed.

(** X22: [run] depends on the requested number of simulations only through
    its normalization: two configurations whose requests normalize alike
    give the same result, so every request from 65536 on runs as 65536. *)
Theorem run_normalized_request (input_data : gmap string F)
    (params params' : gmap string Z) (sampler : normal_sampler F) :
  next_power_of_2 (default 10000 (params' !! "NumberOfSimulations"))
  = next_power_of_2 (default 10000 (params !! "NumberOfSimulations")) →
  run input_data (Some params') sampler = run input_data (Some params) sampler.
Proof.
  intros Hsame. unfold run.
  destruct (dict_getitem input_data "Initial Interest Rate"); [|done].
  destruct (dict_getitem input_data "Volatility"); [|done].
  destruct (dict_getitem input_data "Maturity Time"); [|done].
  cbn [from_option mbind result_bind]. by rewrite Hsame.
Qed.

Lemma run_normalizer_failure (input_data : gmap string F)
    (params : gmap string Z) (sampler : normal_sampler F)
    (initial_rate volatility months : F) (requested : Z) (e : exn) :
  input_data !! "Initial Interest Rate" = Some initial_rate →
  input_data !! "Volatility" = Some volatility →
  input_data !! "Maturity Time" = Some months →
  params !! "NumberOfSimulations" = Some requested →
  next_power_of_2 requested = Raise e →
  run input_data (Some params) sampler = Raise e.
Proof.
  intros Hrate Hvol Hmonths Hreq Hraise.
  rewrite (run_fields _ _ _ _ _ _ Hrate Hvol Hmonths).
  cbn [from_option mbind result_bind]. rewrite Hreq.
  change (default 10000 (Some requested)) with requested.
  by rewrite Hraise.
Qed.

(** X23: a request outside the domain of the normalizer makes [run] fail
    before the sampler is called: with [OverflowError] at zero, with
    [ValueError] for a negative request down to [- 2 ^ 63], and with
    [TypeError] below [- 2 ^ 63] and from [2 ^ 64] on. *)
Theorem run_request_out_of_range (input_data : gmap string F)
    (params : gmap string Z) (sampler : normal_sampler F)
    (initial_rate volatility months : F) (requested : Z) :
  input_data !! "Initial Interest Rate" = Some initial_rate →
  input_data !! "Volatility" = Some volatility →
  input_data !! "Maturity Time" = Some months →
  params !! "NumberOfSimulations" = Some requested →
  (requested = 0 →
   run input_data (Some params) sampler = Raise OverflowError) ∧
  (- 2 ^ 63 ≤ requested < 0 →
   run input_data (Some params) sampler = Raise ValueError) ∧
  (requested < - 2 ^ 63 ∨ 2 ^ 64 ≤ requested →
   run input_data (Some params) sampler = Raise TypeError).
Proof.
  intros Hrate Hvol Hmonths Hreq.
  destruct (next_power_of_2_raises requested) as (Hzero & Hneg & Hbig).
  repeat split; intros Hcase;
    eapply run_normalizer_failure; eauto.
Qed.

(** X24: the wrapper fails with the lookup failure of [data] when the
    document has no such key, whatever else it holds. *)
Theorem app_missing_data (dic : document F) (sampler : normal_sampler F) :
  doc_data dic = None → app dic sampler = Raise (KeyError "data").
Proof. intros Hdata. unfold app. by rewrite Hdata. Qed.

(** X25: when the document has no key [solver_params] the wrapper passes an
    empty dictionary: the run is the one with the default request of 10000
    simulations, and for a scenario with its fields it passes the
    configuration lookup and goes on to the estimator with 16384 paths. *)
Theorem app_default_solver_params (dic : document F)
    (sampler : normal_sampler F) (data : gmap string F)
    (initial_rate volatility months : F) :
  doc_data dic = Some data → doc_solver_params dic = None →
  data !! "Initial Interest Rate" = Some initial_rate →
  data !! "Volatility" = Some volatility →
  data !! "Maturity Time" = Some months →
  app dic sampler
  = run data (Some {["NumberOfSimulations" := 10000]}) sampler ∧
  app dic sampler
  = ('(estimated_price, variance) ←
       monte_carlo_bond_price (months / of_int 12)%f initial_rate volatility
         (Z.to_nat 16384) (lit 0.01) sampler;
     Ok {| bond_price := estimated_price; variance := variance |}).
Proof.
  intros Hdata Hparams Hrate Hvol Hmonths. unfold app.
  rewrite Hdata, Hparams. cbn [default from_option mbind result_bind].
  rewrite !(run_fields _ _ _ _ _ _ Hrate Hvol Hmonths). split; reflexivity.
Qed.

(** X26: a document whose [solver_params] is JSON [null] reaches [run] with
    [None] and fails with the attribute error, since the default of the
    wrapper only replaces an absent key. *)
Theorem app_null_solver_params (dic : document F)
    (sampler : normal_sampler F) (data : gmap string F)
    (initial_rate volatility months : F) :
  doc_data dic = Some data → doc_solver_params dic = Some None →
  data !! "Initial Interest Rate" = Some initial_rate →
  data !! "Volatility" = Some volatility →
  data !! "Maturity Time" = Some months →
  app dic sampler = Raise AttributeError.
Proof.
  intros Hdata Hparams Hrate Hvol Hmonths. unfold app.
  rewrite Hdata, Hparams. cbn [default from_option mbind result_bind].
  by rewrite (run_fields _ _ _ _ _ _ Hrate Hvol Hmonths).
Qed.
End entry_point_frame.

(** ** The further properties at concrete inputs *)

Lemma simulate_then_discount_witness :
  ∃ paths grid dfs,
    simulate_short_rate_quasi_mc 2%R 0.03%R 0.01%R 2 1%R zero_sampler
      = Ok (paths, grid) ∧
    length paths = S (Z.to_nat 2) ∧
    length grid = S (Z.to_nat 2) ∧
    compute_discount_factors paths grid = Ok dfs ∧
    length dfs = Z.to_nat 2.
Proof.
  apply (simulate_then_discount 2%R 0.03%R 0.01%R 2 1%R zero_sampler
           (λ _ _, 0%R) 2).
  - apply num_steps_of_R; lra.
  - lia.
  - reflexivity.
Defined.

Lemma zero_time_step_witness :
  simulate_short_rate_quasi_mc 1%R 0.03%R 0.01%R 2 0%R zero_sampler
    = Raise ZeroDivisionError ∧
  monte_carlo_bond_price 1%R 0.03%R 0.01%R 2 0%R zero_sampler
    = Raise ZeroDivisionError.
Proof.
  apply (zero_time_step 1%R 0.03%R 0.01%R 2 0%R zero_sampler).
  apply bool_decide_eq_true_2. reflexivity.
Defined.

Lemma negative_horizon_witness :
  simulate_short_rate_quasi_mc (-2)%R 0.03%R 0.01%R 2 1%R zero_sampler
    = Raise ValueError ∧
  monte_carlo_bond_price (-2)%R 0.03%R 0.01%R 2 1%R zero_sampler
    = Raise ValueError.
Proof.
  apply (negative_horizon (-2)%R 0.03%R 0.01%R 2 1%R zero_sampler (-2)).
  - apply num_steps_of_R; lra.
  - lia.
Defined.

Lemma sampler_failure_witness :
  simulate_short_rate_quasi_mc (12%R / of_int 12)%f 0.03%R 0.01%R
    (Z.to_nat 1024) (lit 0.01) (λ _ _, Raise ValueError) = Raise ValueError ∧
  monte_carlo_bond_price (12%R / of_int 12)%f 0.03%R 0.01%R
    (Z.to_nat 1024) (lit 0.01) (λ _ _, Raise ValueError) = Raise ValueError ∧
  run example_scenario (Some {["NumberOfSimulations" := 1024]})
    (λ _ _, Raise ValueError) = Raise ValueError.
Proof.
  apply (sampler_failure example_scenario {["NumberOfSimulations" := 1024]}
           (λ _ _, Raise ValueError) 0.03%R 0.01%R 12%R 100 1024 ValueError).
  - reflexivity.
  - reflexivity.
  - reflexivity.
  - reflexivity.
  - apply example_scenario_steps.
  - lia.
  - reflexivity.
Defined.

Lemma no_time_step_witness :
  (∃ paths grid,
     simulate_short_rate_quasi_mc 0%R 0.03%R 0.01%R 2 1%R zero_sampler
       = Ok (paths, grid) ∧
     length paths = 1%nat ∧
     compute_discount_factors paths grid = Ok []) ∧
  monte_carlo_bond_price 0%R 0.03%R 0.01%R 2 1%R zero_sampler
    = Raise IndexError.
Proof.
  apply (no_time_step 0%R 0.03%R 0.01%R 2 1%R zero_sampler (λ _ _, 0%R)).
  - apply num_steps_of_R; lra.
  - reflexivity.
Defined.

Lemma discount_shape_mismatch_witness :
  compute_discount_factors
    [ [# 0.03%R]; [# 0.02%R]; [# 0.01%R]; [# 0.01%R] ] [0%R; 1%R; 2%R]
  = Raise ValueError.
Proof.
  apply (discount_shape_mismatch
           [ [# 0.03%R]; [# 0.02%R]; [# 0.01%R]; [# 0.01%R] ]
           [0%R; 1%R; 2%R]); simpl; lia.
Defined.

Lemma time_grid_uniform_witness :
  ∃ paths grid,
    simulate_short_rate_quasi_mc 1%R 0.03%R 0.01%R 2 0.4%R zero_sampler
      = Ok (paths, grid) ∧
    (∀ j : nat, (j ≤ Z.to_nat 2)%nat →
       grid !! j = Some (INR j * (1 / IZR 2))%R) ∧
    grid !! 0%nat = Some 0%R ∧
    last grid = Some 1%R ∧
    np_diff grid = replicate (Z.to_nat 2) (1 / IZR 2)%R.
Proof.
  apply (time_grid_uniform 1%R 0.03%R 0.01%R 2 0.4%R zero_sampler
           (λ _ _, 0%R) 2).
  - unfold num_steps_of, py_truediv. simpl.
    rewrite bool_decide_eq_false_2 by lra. simpl. f_equal.
    unfold R_round. rewrite (Zfloor_eq 2) by lra.
    destruct (Rlt_dec _ _) as [_|Hn]; [done|]. 
    destruct (Rlt_dec _ _) as [Hlt|_]; [|done]. exfalso. simpl in Hlt. lra.
  - lia.
  - reflexivity.
Defined.

Lemma simulate_closed_form_witness :
  ∃ paths grid,
    simulate_short_rate_quasi_mc 2%R 0.05%R 0.01%R 2 1%R zero_sampler
      = Ok (paths, grid) ∧
    ∀ (i : fin 2) (t : nat), (t ≤ Z.to_nat 2)%nat →
      entry paths i t
      = (0.03 + (1 - 0.1 * 1) ^ t * (0.05 - 0.03)
         + 0.01 * sqrt 1 * shock_sum (1 - 0.1 * 1) (λ _, 0%R) t)%R.
Proof.
  apply (simulate_closed_form 2%R 0.05%R 0.01%R 2 1%R zero_sampler
           (λ _ _, 0%R) 2).
  - apply num_steps_of_R; lra.
  - lia.
  - reflexivity.
Defined.

Lemma variance_zero_witness :
  (∃ price,
     monte_carlo_bond_price 2%R 0.03%R 0.01%R 1 1%R zero_sampler
     = Ok (price, 0%R)) ∧
  (∃ price,
     monte_carlo_bond_price 2%R 0.03%R 0%R 4 1%R zero_sampler
     = Ok (price, 0%R)).
Proof.
  split.
  - apply (variance_zero 2%R 0.03%R 0.01%R 1 1%R zero_sampler (λ _ _, 0%R) 2).
    + lia.
    + apply num_steps_of_R; lra.
    + lia.
    + reflexivity.
    + left. reflexivity.
  - apply (variance_zero 2%R 0.03%R 0%R 4 1%R zero_sampler (λ _ _, 0%R) 2).
    + lia.
    + apply num_steps_of_R; lra.
    + lia.
    + reflexivity.
    + right. reflexivity.
Defined.

Lemma example_rates_nonneg (i : fin 1) (t : nat) :
  (t < 2)%nat →
  (0 <= entry [ [# 0.03%R]; [# 0.02%R]; [# 0.01%R] ] i t)%R.
Proof.
  intros Ht. inv_fin i; [|intros i; inv_fin i].
  destruct t as [|[|t]]; [| |lia]; unfold entry; simpl; lra.
Qed.

Lemma example_grid_increasing (t : nat) :
  (t < 2)%nat → ([0%R; 1%R; 2%R] !!! t <= [0%R; 1%R; 2%R] !!! S t)%R.
Proof. intros Ht. destruct t as [|[|t]]; [| |lia]; simpl; lra. Qed.

Lemma discount_factors_bounds_witness :
  ∃ dfs,
    compute_discount_factors [ [# 0.03%R]; [# 0.02%R]; [# 0.01%R] ]
      [0%R; 1%R; 2%R] = Ok dfs ∧
    (∀ (i : fin 1) (t : nat), (t < 2)%nat → (0 < entry dfs i t)%R) ∧
    (∀ (i : fin 1) (t : nat), (t < 2)%nat →
       (entry dfs i t <= 1)%R ∧
       ((S t < 2)%nat → (entry dfs i (S t) <= entry dfs i t)%R)).
Proof.
  destruct (discount_factors_bounds
              [ [# 0.03%R]; [# 0.02%R]; [# 0.01%R] ] [0%R; 1%R; 2%R] 2
              eq_refl eq_refl)
    as (dfs & Hdfs & Hpositive & Hbounds).
  exists dfs. split; [exact Hdfs|]. split; [exact Hpositive|].
  exact (Hbounds example_rates_nonneg example_grid_increasing).
Defined.

Lemma discount_factors_compound_witness :
  ∃ dfs,
    compute_discount_factors [ [# 0.03%R]; [# 0.02%R]; [# 0.01%R] ]
      [0%R; 1%R; 2%R] = Ok dfs ∧
    (∀ i : fin 1, (0 < 2)%nat →
       entry dfs i 0
       = exp (- (entry [ [# 0.03%R]; [# 0.02%R]; [# 0.01%R] ] i 0
                 * ([0%R; 1%R; 2%R] !!! 1%nat - [0%R; 1%R; 2%R] !!! 0%nat))))
    ∧
    (∀ (i : fin 1) (t : nat), (S t < 2)%nat →
       entry dfs i (S t)
       = (entry dfs i t
          * exp (- (entry [ [# 0.03%R]; [# 0.02%R]; [# 0.01%R] ] i (S t)
                    * ([0%R; 1%R; 2%R] !!! S (S t)
                       - [0%R; 1%R; 2%R] !!! S t))))%R).
Proof.
  refine (discount_factors_compound
            [ [# 0.03%R]; [# 0.02%R]; [# 0.01%R] ] [0%R; 1%R; 2%R] 2 _ _);
    reflexivity.
Defined.


Lemma vasicek_bond_price_at_zero_witness :
  vasicek_bond_price 0%R 0.03%R 0.01%R 1%R 0.03%R = Ok 1%R.
Proof. apply (vasicek_bond_price_at_zero 0.03%R 0.01%R 1%R 0.03%R). lra. Defined.

Lemma vasicek_bond_price_decreasing_witness :
  ∃ price price',
    vasicek_bond_price 1%R 0.03%R 0.01%R 1%R 0.03%R = Ok price ∧
    vasicek_bond_price 1%R 0.05%R 0.01%R 1%R 0.03%R = Ok price' ∧
    (price' <= price)%R.
Proof.
  eexists _, _.
  split; [apply vasicek_bond_price_value; lra|].
  split; [apply vasicek_bond_price_value; lra|].
  apply (vasicek_bond_price_decreasing 1%R 0.03%R 0.05%R 0.01%R 1%R 0.03%R).
  - lra.
  - lra.
  - lra.
  - apply vasicek_bond_price_value; lra.
  - apply vasicek_bond_price_value; lra.
Defined.

Lemma vasicek_bond_price_flat_witness :
  vasicek_bond_price 1%R 0.03%R 0%R 1%R 0.03%R = Ok (exp (- (0.03) * 1)).
Proof. apply (vasicek_bond_price_flat 1%R 1%R 0.03%R). lra. Defined.

Lemma run_reads_required_fields_witness :
  run (<["Currency" := 1%R]> example_scenario)
      (Some {["NumberOfSimulations" := 1024]}) zero_sampler
  = run example_scenario (Some {["NumberOfSimulations" := 1024]})
      zero_sampler.
Proof.
  apply (run_reads_required_fields example_scenario
           (<["Currency" := 1%R]> example_scenario)).
  intros key Hkey. unfold required_fields in Hkey.
  repeat (apply elem_of_cons in Hkey as [->|Hkey]; [reflexivity|]).
  by apply elem_of_nil in Hkey.
Defined.

Lemma run_normalized_request_witness :
  run example_scenario (Some {["NumberOfSimulations" := 1000000]})
    zero_sampler
  = run example_scenario (Some {["NumberOfSimulations" := 65536]})
      zero_sampler.
Proof.
  apply (run_normalized_request example_scenario
           {["NumberOfSimulations" := 65536]}
           {["NumberOfSimulations" := 1000000]} zero_sampler).
  reflexivity.
Defined.

Lemma run_request_out_of_range_witness :
  run example_scenario (Some {["NumberOfSimulations" := -8]}) zero_sampler
  = Raise ValueError ∧
  run example_scenario (Some {["NumberOfSimulations" := 2 ^ 64]}) zero_sampler
  = Raise TypeError.
Proof.
  split.
  - apply (run_request_out_of_range example_scenario
             {["NumberOfSimulations" := -8]} zero_sampler
             0.03%R 0.01%R 12%R (-8)); [reflexivity..|lia].
  - apply (run_request_out_of_range example_scenario
             {["NumberOfSimulations" := 2 ^ 64]} zero_sampler
             0.03%R 0.01%R 12%R (2 ^ 64)); [reflexivity..|lia].
Defined.

Lemma app_missing_data_witness :
  app (Document None (Some None)) zero_sampler = Raise (KeyError "data").
Proof.
  apply (app_missing_data (Document None (Some None)) zero_sampler).
  reflexivity.
Defined.

Lemma app_default_solver_params_witness :
  app (Document (Some example_scenario) None) zero_sampler
  = run example_scenario (Some {["NumberOfSimulations" := 10000]})
      zero_sampler ∧
  app (Document (Some example_scenario) None) zero_sampler
  = ('(estimated_price, variance) ←
       monte_carlo_bond_price (12%R / of_int 12)%f 0.03%R 0.01%R
         (Z.to_nat 16384) (lit 0.01) zero_sampler;
     Ok {| bond_price := estimated_price; variance := variance |}).
Proof.
  apply (app_default_solver_params (Document (Some example_scenario) None)
           zero_sampler example_scenario 0.03%R 0.01%R 12%R);
    reflexivity.
Defined.

Lemma app_null_solver_params_witness :
  app (Document (Some example_scenario) (Some None)) zero_sampler
  = Raise AttributeError.
Proof.
  apply (app_null_solver_params
           (Document (Some example_scenario) (Some None))
           zero_sampler example_scenario 0.03%R 0.01%R 12%R);
    reflexivity.
Defined.

(** ** The number of steps and the pull to the long-run mean *)

(** X27: for a time step other than zero the number of steps is an integer
    nearest to [total_time / time_step]: it differs from the quotient by at
    most one half, and it is the quotient when that is an integer. *)
Theorem num_steps_nearest (total_time time_step : R) :
  time_step ≠ 0%R →
  ∃ k,
    num_steps_of total_time time_step = Ok k ∧
    (Rabs (IZR k - total_time / time_step) <= 1 / 2)%R ∧
    ∀ z : Z, total_time = (IZR z * time_step)%R → k = z.
Proof.
  intros Hdt. unfold num_steps_of, py_truediv. simpl.
  rewrite bool_decide_eq_false_2 by done. simpl.
  eexists. split; [reflexivity|]. split; [apply R_round_nearest|].
  intros z ->.
  replace (IZR z * time_step / time_step)%R with (IZR z) by (by field).
  apply R_round_IZR.
Qed.

Lemma num_steps_nearest_witness :
  ∃ k,
    num_steps_of 1%R 0.4%R = Ok k ∧
    (Rabs (IZR k - 1 / 0.4) <= 1 / 2)%R ∧
    ∀ z : Z, 1%R = (IZR z * 0.4)%R → k = z.
Proof. apply (num_steps_nearest 1%R 0.4%R). lra. Defined.

(** X28: for a float initial rate and in exact arithmetic: without
    volatility, and with a time step between 0 and 10 so that [0.1 * dt] is
    at most 1, every step brings the rate of a path no farther from the
    long-run mean 0.03 than it was, on the same side of it. *)
Theorem mean_reversion (total_time initial_rate : R) (n : nat)
    (time_step : R) (sampler : normal_sampler R) (shocks : nat → nat → R)
    (k : Z) :
  num_steps_of total_time time_step = Ok k → 0 ≤ k →
  sampler k n = Ok shocks →
  (0 <= time_step <= 10)%R →
  ∃ paths grid,
    simulate_short_rate_quasi_mc total_time initial_rate 0%R n time_step
      sampler = Ok (paths, grid) ∧
    ∀ (i : fin n) (t : nat), (t < Z.to_nat k)%nat →
      (Rabs (entry paths i (S t) - 0.03) <= Rabs (entry paths i t - 0.03))%R
      ∧ (0 <= (entry paths i (S t) - 0.03) * (entry paths i t - 0.03))%R.
Proof.
  intros Hk Hpos Hsampler Hdt.
  destruct (simulate_ok total_time initial_rate 0%R n time_step
              sampler shocks k Hk Hpos Hsampler)
    as (paths & grid & Hsim & _ & _ & _ & _ & Hrec).
  exists paths, grid. split; [done|]. intros i t Ht.
  destruct (Hrec (S t) ltac:(lia)) as (prev & c & Hprev & Hc & Hval).
  replace (S t - 1)%nat with t in * by lia.
  unfold entry.
  rewrite (list_lookup_total_correct _ _ _ Hc),
          (list_lookup_total_correct _ _ _ Hprev), Hval,
          vasicek_step_affine.
  set (gap := (prev !!! i - 0.03)%R).
  replace (0.03 + (1 - 0.1 * time_step) * gap
           + 0 * sqrt time_step * shocks i t - 0.03)%R
    with ((1 - 0.1 * time_step) * gap)%R by lra.
  split.
  - rewrite Rabs_mult, (Rabs_pos_eq (1 - 0.1 * time_step)) by lra.
    pose proof (Rabs_pos gap). nra.
  - pose proof (Rle_0_sqr gap) as Hsq. unfold Rsqr in Hsq. nra.
Qed.

Lemma mean_reversion_witness :
  ∃ paths grid,
    simulate_short_rate_quasi_mc 2%R 0.05%R 0%R 2 1%R zero_sampler
      = Ok (paths, grid) ∧
    ∀ (i : fin 2) (t : nat), (t < Z.to_nat 2)%nat →
      (Rabs (entry paths i (S t) - 0.03) <= Rabs (entry paths i t - 0.03))%R
      ∧ (0 <= (entry paths i (S t) - 0.03) * (entry paths i t - 0.03))%R.
Proof.
  apply (mean_reversion 2%R 0.05%R 2 1%R zero_sampler (λ _ _, 0%R) 2).
  - apply num_steps_of_R; lra.
  - lia.
  - reflexivity.
  - lra.
Defined.
